(** * stepmotor.py: the Stepper driver, embedded and verified

    The Python class [Stepper] drives a four-coil stepper motor through the
    wiringpi library.  This file embeds the class as state-passing functions
    over a record of its attributes and a log of the hardware calls it
    makes, and proves the properties of the motion profile computed by
    [move].

    Conventions of the embedding:
    - Python integers are [Z]; [%] with a positive divisor is [Z.modulo].
    - The floats of the program are the results of [step_num / 2],
      [speed / acceleration_factor] and [1 / actual_speed].  They are kept
      as exact rationals ([Q]).  With the integer attributes set by
      [__init__] and step counts below 2^53 the first two are exact in
      floating point as well; the third is only handed to [time.sleep],
      and the rational stands for its rounded value.
    - The hardware (wiringpi calls and [time.sleep]) is a log of events,
      most recent first.
    - An uncaught Python exception is the outcome [Raised]. *)

From Stdlib Require Import ZArith QArith Qround Qminmax List String Ascii Bool Lia.
From Stdlib Require Import DecimalString.
From Equations Require Import Equations.
From Equations.Prop Require Import Logic.
Import ListNotations.

Local Open Scope string_scope.
Local Open Scope list_scope.
Local Open Scope Z_scope.

(** ** Python values and exceptions *)

(** The values a caller can pass for a pin, a step count or a speed. *)
Inductive pyval : Type :=
| PyNone
| PyInt (z : Z)
| PyStr (s : string).

Inductive exn : Type :=
| ConfigurationError (msg : string)
| TypeError
| ValueError
| ZeroDivisionError
| IndexError.

Module Py.

(** [str(v)], as used by [str.format]. *)
Definition str (v : pyval) : string :=
  match v with
  | PyNone => "None"
  | PyInt z => NilZero.string_of_int (Z.to_int z)
  | PyStr s => s
  end.

Definition is_space (c : ascii) : bool :=
  match c with
  | " "%char | "009"%char | "010"%char | "011"%char | "012"%char | "013"%char
  | "028"%char | "029"%char | "030"%char | "031"%char => true
  | _ => false
  end.

Definition digit (c : ascii) : option Z :=
  let n := Z.of_nat (nat_of_ascii c) in
  if (48 <=? n) && (n <=? 57) then Some (n - 48) else None.

Fixpoint lstrip (s : list ascii) : list ascii :=
  match s with
  | c :: s' => if is_space c then lstrip s' else s
  | [] => []
  end.

Definition strip (s : list ascii) : list ascii :=
  rev (lstrip (rev (lstrip s))).

(** Digits with single underscores between them; [after_digit] tells
    whether the previous character was a digit, so that an empty string,
    a leading, a trailing or a doubled underscore is refused. *)
Fixpoint digits (acc : Z) (after_digit : bool) (s : list ascii) : option Z :=
  match s with
  | [] => if after_digit then Some acc else None
  | c :: s' =>
      if Ascii.eqb c "_" then
        if after_digit then digits acc false s' else None
      else
        match digit c with
        | Some d => digits (10 * acc + d) true s'
        | None => None
        end
  end.

(** A decimal literal of [int(str)] on an ASCII string: surrounding
    whitespace, an optional sign, then digits with single underscores
    between them.  Characters beyond ASCII (other Unicode spaces and
    digits) are outside the model. *)
Definition int_literal (s : string) : option Z :=
  match strip (list_ascii_of_string s) with
  | [] => None
  | c :: ds =>
      if Ascii.eqb c "-" then
        option_map Z.opp (digits 0 false ds)
      else if Ascii.eqb c "+" then
        digits 0 false ds
      else digits 0 false (c :: ds)
  end.

(** [int(v)]: [TypeError] on [None], [ValueError] on a string that is not
    a literal. *)
Definition int (v : pyval) : exn + Z :=
  match v with
  | PyNone => inl TypeError
  | PyInt z => inr z
  | PyStr s =>
      match int_literal s with
      | Some z => inr z
      | None => inl ValueError
      end
  end.

(** [l[i]] with Python's wrap-around of negative indices. *)
Definition index {A : Type} (l : list A) (i : Z) : exn + A :=
  let len := Z.of_nat (List.length l) in
  let j := if i <? 0 then len + i else i in
  if (0 <=? j) && (j <? len) then
    match nth_error l (Z.to_nat j) with
    | Some x => inr x
    | None => inl IndexError
    end
  else inl IndexError.

(** [a / b] on integers: true division, as an exact rational.  The float
    of the code is this rational when it is representable; the statements
    about whole moves keep step counts and limits below 2^53
    ([float_exact]), where the quotients taken by [move] are exact or
    truncate to the same integer. *)
Definition truediv (a b : Z) : exn + Q :=
  if b =? 0 then inl ZeroDivisionError
  else inr (inject_Z a / inject_Z b)%Q.

(** [int(q)] on a float: truncation toward zero. *)
Definition trunc (q : Q) : Z :=
  if Qle_bool 0 q then Qfloor q else Qceiling q.

End Py.

(** ** The hardware log *)

Inductive event : Type :=
| WiringPiSetup
| PinMode (pin : pyval) (mode : Z)
| DigitalWrite (pin : pyval) (level : Z)
| Sleep (t : Q).

(** ** The object *)

Record Stepper : Type := mkStepper {
  inp : list Z;
  num_step : Z;
  half : list (list Z);
  actspeed : Z;
  direction : option Z;
  actual_speed : Z;
  acceleration_factor : Z;
  MIN_SPEED : Z;
  MAX_SPEED : Z;
  debug : bool;
  debug_filename : string;
  absolute_time : Z
}.

Definition set_num_step (v : Z) (s : Stepper) : Stepper :=
  mkStepper (inp s) v (half s) (actspeed s) (direction s) (actual_speed s)
    (acceleration_factor s) (MIN_SPEED s) (MAX_SPEED s)
    (debug s) (debug_filename s) (absolute_time s).

Definition set_direction (v : option Z) (s : Stepper) : Stepper :=
  mkStepper (inp s) (num_step s) (half s) (actspeed s) v (actual_speed s)
    (acceleration_factor s) (MIN_SPEED s) (MAX_SPEED s)
    (debug s) (debug_filename s) (absolute_time s).

Definition set_actual_speed (v : Z) (s : Stepper) : Stepper :=
  mkStepper (inp s) (num_step s) (half s) (actspeed s) (direction s) v
    (acceleration_factor s) (MIN_SPEED s) (MAX_SPEED s)
    (debug s) (debug_filename s) (absolute_time s).

(** The half-step table assigned to [self.half] by [__init__]. *)
Definition half_table : list (list Z) :=
  [ [1; 0; 0; 1];
    [1; 0; 0; 0];
    [1; 1; 0; 0];
    [0; 1; 0; 0];
    [0; 1; 1; 0];
    [0; 0; 1; 0];
    [0; 0; 1; 1];
    [0; 0; 0; 1] ].

(** ** The monad of methods: the object, the hardware log, exceptions *)

Record world : Type := mkWorld {
  self : Stepper;
  hw : list event
}.

Inductive outcome (A : Type) : Type :=
| Normal (a : A)
| Raised (e : exn).
Arguments Normal {A} a.
Arguments Raised {A} e.

Definition M (A : Type) : Type := world -> outcome A * world.

Definition ret {A} (a : A) : M A := fun w => (Normal a, w).

Definition bind {A B} (m : M A) (k : A -> M B) : M B :=
  fun w =>
    match m w with
    | (Normal a, w') => k a w'
    | (Raised e, w') => (Raised e, w')
    end.

Definition raise {A} (e : exn) : M A := fun w => (Raised e, w).

Definition lift {A} (r : exn + A) : M A :=
  match r with
  | inl e => raise e
  | inr a => ret a
  end.

Definition get_self : M Stepper := fun w => (Normal (self w), w).

Definition modify_self (f : Stepper -> Stepper) : M unit :=
  fun w => (Normal tt, mkWorld (f (self w)) (hw w)).

Definition emit (e : event) : M unit :=
  fun w => (Normal tt, mkWorld (self w) (e :: hw w)).

Declare Scope py_scope.
Delimit Scope py_scope with py.
Notation "x <- m ;; k" := (bind m (fun x => k))
  (at level 61, m at next level, right associativity) : py_scope.
Notation "m ;; k" := (bind m (fun _ => k))
  (at level 61, right associativity) : py_scope.
Local Open Scope py_scope.

(** [for x in l: body x]. *)
Fixpoint for_each {A} (l : list A) (body : A -> M unit) : M unit :=
  match l with
  | [] => ret tt
  | x :: l' => body x ;; for_each l' body
  end.

(** [for _ in range(n): body]. *)
Fixpoint for_range (n : nat) (body : M unit) : M unit :=
  match n with
  | O => ret tt
  | S n' => body ;; for_range n' body
  end.

(** [time.sleep(t)]: a negative duration is a [ValueError]. *)
Definition sleep (t : Q) : M unit :=
  if Qle_bool 0 t then emit (Sleep t) else raise ValueError.

(** ** Construction *)

(** [try: int(i)] with [except ValueError: raise ConfigurationError(...)];
    [what] is the ordinal of the pin in the message.  Any other exception
    of [int] goes through. *)
Definition try_int (what : string) (i : pyval) : exn + unit :=
  match Py.int i with
  | inr _ => inr tt
  | inl ValueError =>
      inl (ConfigurationError
             ("The " ++ what ++ " pin ID is not an integer: " ++ Py.str i)%string)
  | inl e => inl e
  end.

(** The loop over [range(len(input_pins))]: [i] is the index reached. *)
Fixpoint check_range (i : Z) (pins : list Z) : exn + unit :=
  match pins with
  | [] => inr tt
  | p :: rest =>
      if existsb (Z.eqb p) (map Z.of_nat (seq 0 17)) then check_range (i + 1) rest
      else inl (ConfigurationError
                  ("The pin number " ++ Py.str (PyInt (i + 1))
                   ++ " does not exist. Valid pin numbers are from 0 to 16.")%string)
  end.

Definition sum_bind {A B} (r : exn + A) (k : A -> exn + B) : exn + B :=
  match r with
  | inl e => inl e
  | inr a => k a
  end.

(** [check_pins]: the list it stores in [self.inp], or the exception it
    raises.  It makes no hardware call. *)
Definition check_pins (i1 i2 i3 i4 : pyval) : exn + list Z :=
  sum_bind (try_int "first" i1) (fun _ =>
  sum_bind (try_int "second" i2) (fun _ =>
  sum_bind (try_int "third" i3) (fun _ =>
  sum_bind (try_int "fourth" i4) (fun _ =>
  sum_bind (Py.int i1) (fun p1 =>
  sum_bind (Py.int i2) (fun p2 =>
  sum_bind (Py.int i3) (fun p3 =>
  sum_bind (Py.int i4) (fun p4 =>
  let input_pins := [p1; p2; p3; p4] in
  sum_bind (check_range 0 input_pins) (fun _ =>
  if negb (Nat.eqb (List.length (nodup Z.eq_dec input_pins)) 4) then
    inl (ConfigurationError
           "There are two different pins with the same number. Pins must have unique numbers")
  else inr input_pins))))))))).

(** [Stepper(i1, i2, i3, i4)] with [debug] left at [False]: the hardware
    log after the call, and the object or the exception.  The pins go to
    [pinMode] and [digitalWrite] as they were passed; what wiringpi does
    with a pin that is not an integer is outside the model, and the
    statements about the constructor take integers or [None]. *)
Definition __init__ (i1 i2 i3 i4 : pyval) (log : list event)
  : outcome Stepper * list event :=
  let log := WiringPiSetup :: log in
  match check_pins i1 i2 i3 i4 with
  | inl e => (Raised e, log)
  | inr input_pins =>
      let log := PinMode i4 1 :: PinMode i3 1 :: PinMode i2 1 :: PinMode i1 1 :: log in
      let log := DigitalWrite i4 0 :: DigitalWrite i3 0
                   :: DigitalWrite i2 0 :: DigitalWrite i1 0 :: log in
      (Normal {| inp := input_pins;
                 num_step := 0;
                 half := half_table;
                 actspeed := 0;
                 direction := None;
                 actual_speed := 0;
                 acceleration_factor := 1;
                 MIN_SPEED := 10;
                 MAX_SPEED := 500;
                 debug := false;
                 debug_filename := "";
                 absolute_time := 0 |}, log)
  end.

(** ** Stepping *)

Definition stop : M unit :=
  s <- get_self ;;
  p0 <- lift (Py.index (inp s) 0) ;; emit (DigitalWrite (PyInt p0) 0) ;;
  p2 <- lift (Py.index (inp s) 2) ;; emit (DigitalWrite (PyInt p2) 0) ;;
  p3 <- lift (Py.index (inp s) 3) ;; emit (DigitalWrite (PyInt p3) 0) ;;
  p1 <- lift (Py.index (inp s) 1) ;; emit (DigitalWrite (PyInt p1) 0).

(** [phase = (self.num_step % 8) * self.direction]; the product with the
    [None] that [__init__] leaves in [direction] is a [TypeError]. *)
Definition phase_of (s : Stepper) : exn + Z :=
  match direction s with
  | Some d => inr ((num_step s mod 8) * d)
  | None => inl TypeError
  end.

Definition run_one_step : M unit :=
  s <- get_self ;;
  phase <- lift (phase_of s) ;;
  for_each [0; 1; 2; 3] (fun k =>
    pin <- lift (Py.index (inp s) k) ;;
    row <- lift (Py.index (half s) phase) ;;
    level <- lift (Py.index row k) ;;
    emit (DigitalWrite (PyInt pin) level)).

(** ** The motion profile *)

Definition get_direction : M Z :=
  s <- get_self ;;
  match direction s with
  | Some d => ret d
  | None => raise TypeError
  end.

(** The body of the [while] loop of [_linear_acceleration]. *)
Definition ramp_step (acc_or_dec : Z) : M unit :=
  s <- get_self ;;
  t <- lift (Py.truediv 1 (actual_speed s)) ;;
  run_one_step ;;
  modify_self (fun s =>
    set_actual_speed (actual_speed s + 1 * acceleration_factor s * acc_or_dec) s) ;;
  d <- get_direction ;;
  modify_self (fun s => set_num_step (num_step s + 1 * d) s) ;;
  sleep t.

(** [count <= steps], an integer against an integer or a float. *)
Definition count_le (count : Z) (steps : Q) : bool :=
  Qle_bool (inject_Z count) steps.

(** [while count <= steps: ...; count += 1]. *)
Equations? ramp_loop (steps : Q) (acc_or_dec : Z) (count : Z) (w : world)
  : outcome unit * world by wf (Z.to_nat (Qfloor steps + 1 - count)) lt :=
  ramp_loop steps acc_or_dec count w with inspect (count_le count steps) := {
    | exist _ true Hc with ramp_step acc_or_dec w := {
        | pair (Normal _) w' => ramp_loop steps acc_or_dec (count + 1) w'
        | pair (Raised e) w' => (Raised e, w') }
    | exist _ false Hc => (Normal tt, w) }.
Proof.
  unfold count_le in Hc. rewrite Qle_bool_iff in Hc.
  apply Qfloor_resp_le in Hc. rewrite Qfloor_Z in Hc. lia.
Qed.

Definition _linear_acceleration (steps : Q) (acc_is_positive : bool) : M unit :=
  let acc_or_dec := 1 in
  let count := 1 in
  (if acc_is_positive
   then modify_self (fun s => set_actual_speed (1 * acceleration_factor s) s)
   else ret tt) ;;
  let acc_or_dec := if negb acc_is_positive then -1 else acc_or_dec in
  ramp_loop steps acc_or_dec count ;;
  (if negb acc_is_positive
   then modify_self (set_actual_speed 0)
   else ret tt).

(** The body of the [for] loop of [_move_with_constant_speed]. *)
Definition cruise_step (t : Q) : M unit :=
  run_one_step ;;
  d <- get_direction ;;
  modify_self (fun s => set_num_step (num_step s + 1 * d) s) ;;
  sleep t.

Definition _move_with_constant_speed (steps : Q) (speed : Z) : M unit :=
  modify_self (set_actual_speed speed) ;;
  s <- get_self ;;
  t <- lift (Py.truediv 1 (actual_speed s)) ;;
  for_range (Z.to_nat (Py.trunc steps)) (cruise_step t).

(** "Apply hardware's speed limits": the two tests on [speed]. *)
Definition clamp (s : Stepper) (speed : Z) : Z :=
  let speed := if speed >? MAX_SPEED s then MAX_SPEED s else speed in
  let speed := if speed <? MIN_SPEED s then MIN_SPEED s else speed in
  speed.

(** [move] from the assignment of the direction up to the correction of
    the cruise speed after the acceleration phase: the values of the locals
    [acceleration_steps], [constant_speed_steps] and [speed] with which the
    last two phases are called. *)
Definition move_ramp_up (step_num speed : Z) : M (Q * Q * Z) :=
  (if speed >=? 0 then modify_self (set_direction (Some 1)) else ret tt) ;;
  speed <- (if speed <? 0
            then modify_self (set_direction (Some (-1))) ;; ret (Z.abs speed)
            else ret speed) ;;
  s <- get_self ;;
  let speed := clamp s speed in
  q <- lift (Py.truediv speed (acceleration_factor s)) ;;
  let acceleration_steps := inject_Z (Py.trunc q) in
  let acceleration_steps :=
    if negb (Qle_bool acceleration_steps (inject_Z step_num / 2))
    then (inject_Z step_num / 2)%Q
    else acceleration_steps in
  let constant_speed_steps := (inject_Z step_num - 2 * acceleration_steps)%Q in
  _linear_acceleration acceleration_steps true ;;
  s <- get_self ;;
  let speed := if speed >? actual_speed s then actual_speed s else speed in
  ret (acceleration_steps, constant_speed_steps, speed).

(** [move] once both arguments are integers and [step_num] is not
    negative. *)
Definition move_valid (step_num speed : Z) : M pyval :=
  plan <- move_ramp_up step_num speed ;;
  let '(acceleration_steps, constant_speed_steps, speed) := plan in
  _move_with_constant_speed constant_speed_steps speed ;;
  _linear_acceleration acceleration_steps false ;;
  ret PyNone.

Definition move (step_num speed : pyval) : M pyval :=
  match step_num with
  | PyNone => ret (PyStr "Invalid input. You should choose a value for *step_num*")
  | _ =>
  match speed with
  | PyNone =>
      ret (PyStr ("Invalid input. You should choose a value for *speed*. "
                  ++ "A possible value could be 250 step/s")%string)
  | _ =>
  match Py.int step_num with
  | inl TypeError | inl ValueError =>
      ret (PyStr "Invalid input. step_num has to be an integer")
  | inl e => raise e
  | inr step_num =>
      if step_num <? 0 then ret (PyStr "Invalid input. step_num has to be positive")
      else
        match Py.int speed with
        | inl TypeError | inl ValueError =>
            ret (PyStr "Invalid input. speed has to be an integer")
        | inl e => raise e
        | inr speed => move_valid step_num speed
        end
  end end end.

(** ** Observations on the hardware log *)

(** The speed at which each step of a log was timed: the inverse of the
    delay slept after it, most recent first. *)
Definition step_speeds (log : list event) : list Q :=
  flat_map (fun e => match e with Sleep t => [Qinv t] | _ => [] end) log.

(** The steps of a log: one [time.sleep] per step. *)
Definition steps_done (log : list event) : nat :=
  List.length (step_speeds log).

(** The largest speed at which a step of the log was timed. *)
Definition peak_speed (log : list event) : Q :=
  fold_right Qmax 0%Q (step_speeds log).

(** The four writes of one step, most recent first: pin [k] receives
    level [k] of the row. *)
Definition writes_of (pins row : list Z) : list event :=
  rev (map (fun pl => DigitalWrite (PyInt (fst pl)) (snd pl)) (combine pins row)).

(** The cruise speed of a call: the value of [speed] handed to
    [_move_with_constant_speed]. *)
Definition cruise_speed (step_num speed : Z) (w : world) : option Z :=
  match fst (move_ramp_up step_num speed w) with
  | Normal (_, _, v) => Some v
  | Raised _ => None
  end.

(** The object of the example at the end of the file,
    [motor1 = Stepper(7, 0, 2, 3)], and the world right after its
    construction. *)
Definition motor1 : Stepper :=
  {| inp := [7; 0; 2; 3];
     num_step := 0;
     half := half_table;
     actspeed := 0;
     direction := None;
     actual_speed := 0;
     acceleration_factor := 1;
     MIN_SPEED := 10;
     MAX_SPEED := 500;
     debug := false;
     debug_filename := "";
     absolute_time := 0 |}.

Definition world1 : world := mkWorld motor1 [].

(** [s] with the three attributes that [move] assigns replaced. *)
Definition moved (s : Stepper) (n : Z) (dir : option Z) (v : Z) : Stepper :=
  mkStepper (inp s) n (half s) (actspeed s) dir v
    (acceleration_factor s) (MIN_SPEED s) (MAX_SPEED s)
    (debug s) (debug_filename s) (absolute_time s).

(** The attributes other than [num_step], [direction] and [actual_speed]
    agree. *)
Definition same_config (s s' : Stepper) : Prop :=
  inp s' = inp s /\ half s' = half s /\ actspeed s' = actspeed s /\
  acceleration_factor s' = acceleration_factor s /\
  MIN_SPEED s' = MIN_SPEED s /\ MAX_SPEED s' = MAX_SPEED s /\
  debug s' = debug s /\ debug_filename s' = debug_filename s /\
  absolute_time s' = absolute_time s.

(** The object is wired as [__init__] leaves it: four pins and the
    half-step table. *)
Definition wired (s : Stepper) : Prop :=
  List.length (inp s) = 4%nat /\ half s = half_table.

(** The limits make sense: a positive acceleration factor and a positive
    minimal speed. *)
Definition limits_ok (s : Stepper) : Prop :=
  0 < acceleration_factor s /\ 0 < MIN_SPEED s.

(** ** Closed forms used in the statements *)

(** A computation that keeps the configuration, whatever its outcome. *)
Definition keeps_config {A} (m : M A) : Prop :=
  forall w, same_config (self w) (self (snd (m w))).

(** The speeds of a ramp of [n] steps that starts at [v] and changes by
    [delta] after each step, most recent first. *)
Fixpoint ramp_speeds (n : nat) (v delta : Z) : list Z :=
  match n with
  | O => []
  | S n' => ramp_speeds n' (v + delta) delta ++ [v]
  end.

(** A world in which a step can be taken in direction [d]. *)
Definition steppable (d : Z) (w : world) : Prop :=
  wired (self w) /\ direction (self w) = Some d.

(** The direction chosen by the sign of [speed]. *)
Definition heading (speed : Z) : Z := if speed >=? 0 then 1 else -1.

(** The speed asked for, within the limits. *)
Definition target_speed (s : Stepper) (speed : Z) : Z := clamp s (Z.abs speed).

(** The move is too short for the ramp to reach the target speed. *)
Definition short_move (s : Stepper) (N speed : Z) : bool :=
  negb (2 * (target_speed s speed / acceleration_factor s) <=? N).

(** The value of [acceleration_steps] and the iterations of each ramp. *)
Definition ramp_arg (s : Stepper) (N speed : Z) : Q :=
  if short_move s N speed then (inject_Z N / 2)%Q
  else inject_Z (target_speed s speed / acceleration_factor s).

Definition ramp_steps (s : Stepper) (N speed : Z) : Z :=
  if short_move s N speed then N / 2
  else target_speed s speed / acceleration_factor s.

(** The value of [constant_speed_steps] and the iterations of the cruise. *)
Definition cruise_arg (s : Stepper) (N speed : Z) : Q :=
  (inject_Z N - 2 * ramp_arg s N speed)%Q.

Definition cruise_steps (s : Stepper) (N speed : Z) : Z :=
  if short_move s N speed then 0
  else N - 2 * (target_speed s speed / acceleration_factor s).

(** The speed left by the acceleration phase, and the cruise speed. *)
Definition ramp_end_speed (s : Stepper) (N speed : Z) : Z :=
  acceleration_factor s * (ramp_steps s N speed + 1).

Definition reached_speed (s : Stepper) (N speed : Z) : Z :=
  Z.min (target_speed s speed) (ramp_end_speed s N speed).

(** The speeds of the steps of a whole move, most recent first: the
    deceleration, the cruise and the acceleration. *)
Definition profile (s : Stepper) (N speed : Z) : list Z :=
  let k := Z.to_nat (ramp_steps s N speed) in
  ramp_speeds k (reached_speed s N speed) (- acceleration_factor s)
  ++ repeat (reached_speed s N speed) (Z.to_nat (cruise_steps s N speed))
  ++ ramp_speeds k (acceleration_factor s) (acceleration_factor s).

(** The steps taken by a whole move. *)
Definition steps_taken (s : Stepper) (N speed : Z) : Z :=
  2 * ramp_steps s N speed + cruise_steps s N speed.

(** ** Closed form of the hardware log *)

(** The row of the table at an index taken modulo 8. *)
Definition table_row (j : Z) : list Z :=
  nth (Z.to_nat (j mod 8)) half_table [].

(** The log of one step at table index [j] timed at speed [v], most recent
    first: the four writes, then the sleep. *)
Definition step_log (pins : list Z) (j v : Z) : list event :=
  Sleep (1 # Z.to_pos v) :: writes_of pins (table_row j).

(** The log after steps at the table indices [j], [j + 1], ... timed at the
    speeds [vs] (in the order of the steps), on top of [log]. *)
Fixpoint run_log (pins : list Z) (j : Z) (vs : list Z) (log : list event)
  : list event :=
  match vs with
  | [] => log
  | v :: vs' => run_log pins (j + 1) vs' (step_log pins j v ++ log)
  end.

(** The speeds of a ramp in the order of its steps. *)
Fixpoint ramp_chron (n : nat) (v delta : Z) : list Z :=
  match n with
  | O => []
  | S n' => v :: ramp_chron n' (v + delta) delta
  end.

(** The speeds of the steps of a whole move in the order of the steps. *)
Definition chron_profile (s : Stepper) (N speed : Z) : list Z :=
  let k := Z.to_nat (ramp_steps s N speed) in
  ramp_chron k (acceleration_factor s) (acceleration_factor s)
  ++ repeat (reached_speed s N speed) (Z.to_nat (cruise_steps s N speed))
  ++ ramp_chron k (reached_speed s N speed) (- acceleration_factor s).

(** The level most recently written to a pin. *)
Fixpoint last_level (log : list event) (pin : Z) : option Z :=
  match log with
  | [] => None
  | DigitalWrite (PyInt p) level :: rest =>
      if p =? pin then Some level else last_level rest pin
  | _ :: rest => last_level rest pin
  end.

(** The [digitalWrite] calls and the sleeps of a log. *)
Definition writes (log : list event) : list event :=
  filter (fun e => match e with DigitalWrite _ _ => true | _ => false end) log.

Definition sleeps (log : list event) : list event :=
  filter (fun e => match e with Sleep _ => true | _ => false end) log.

(** Neighbouring elements of a list differ by at most [a]. *)
Fixpoint smooth (a : Z) (l : list Z) : Prop :=
  match l with
  | x :: (y :: _) as rest => Z.abs (y - x) <= a /\ smooth a rest
  | _ => True
  end.

(** A sequence of calls [move(N, V)], one per request, stopping at the
    first exception. *)
Fixpoint moves (requests : list (Z * Z)) : M unit :=
  match requests with
  | [] => ret tt
  | (N, V) :: rest => move (PyInt N) (PyInt V) ;; moves rest
  end.

(** The displacement of the counter by a sequence of requests. *)
Fixpoint displacement (s : Stepper) (requests : list (Z * Z)) : Z :=
  match requests with
  | [] => 0
  | (N, V) :: rest => steps_taken s N V * heading V + displacement s rest
  end.

(** ** The range in which the floats of [move] are exact *)

(** Step count and limits below 2^53: [step_num / 2] is then an exact
    float, [int(speed / acceleration_factor)] is the integer quotient, and
    no division overflows. *)
Definition float_exact (s : Stepper) (N : Z) : Prop :=
  N < 9007199254740992
  /\ acceleration_factor s < 9007199254740992
  /\ MIN_SPEED s < 9007199254740992
  /\ MAX_SPEED s < 9007199254740992.

(** An argument that is [None] or an integer, not a string. *)
Definition not_str (v : pyval) : Prop :=
  match v with
  | PyStr _ => False
  | _ => True
  end.


(** * Properties *)

(** ** The loop of the ramps *)

Lemma count_le_floor count steps :
  count_le count steps = true <-> count <= Qfloor steps.
Proof.
  unfold count_le. rewrite Qle_bool_iff. split; intros H.
  - apply Qfloor_resp_le in H. rewrite Qfloor_Z in H. exact H.
  - apply Qle_trans with (inject_Z (Qfloor steps)).
    + rewrite <- Zle_Qle. exact H.
    + apply Qfloor_le.
Qed.

Lemma ramp_loop_eq steps acc_or_dec count w :
  ramp_loop steps acc_or_dec count w =
  if count_le count steps then
    match ramp_step acc_or_dec w with
    | (Normal _, w') => ramp_loop steps acc_or_dec (count + 1) w'
    | (Raised e, w') => (Raised e, w')
    end
  else (Normal tt, w).
Proof.
  funelim (ramp_loop steps acc_or_dec count w); rewrite Hc;
    try match goal with E : ramp_step _ _ = _ |- _ => rewrite E end;
    reflexivity.
Qed.

(** ** The attributes that [move] never assigns *)

Create HintDb config.

Section Frame.

Lemma same_config_refl s : same_config s s.
Proof. unfold same_config; tauto. Qed.

Lemma same_config_trans s1 s2 s3 :
  same_config s1 s2 -> same_config s2 s3 -> same_config s1 s3.
Proof. unfold same_config; intuition congruence. Qed.

Lemma keeps_ret {A} (a : A) : keeps_config (ret a).
Proof. intros w; apply same_config_refl. Qed.

Lemma keeps_raise {A} e : keeps_config (@raise A e).
Proof. intros w; apply same_config_refl. Qed.

Lemma keeps_lift {A} (r : exn + A) : keeps_config (lift r).
Proof. destruct r; [apply keeps_raise | apply keeps_ret]. Qed.

Lemma keeps_get_self : keeps_config get_self.
Proof. intros w; apply same_config_refl. Qed.

Lemma keeps_emit e : keeps_config (emit e).
Proof. intros w; apply same_config_refl. Qed.

Lemma keeps_modify f :
  (forall s, same_config s (f s)) -> keeps_config (modify_self f).
Proof. intros H w; apply H. Qed.

Lemma keeps_bind {A B} (m : M A) (k : A -> M B) :
  keeps_config m -> (forall a, keeps_config (k a)) -> keeps_config (bind m k).
Proof.
  intros Hm Hk w. unfold bind. specialize (Hm w).
  destruct (m w) as [[a | e] w']; simpl in *.
  - eapply same_config_trans; [exact Hm | apply Hk].
  - exact Hm.
Qed.

Lemma keeps_if {A} (b : bool) (m1 m2 : M A) :
  keeps_config m1 -> keeps_config m2 -> keeps_config (if b then m1 else m2).
Proof. destruct b; auto. Qed.

Lemma keeps_for_each {A} (l : list A) body :
  (forall x, keeps_config (body x)) -> keeps_config (for_each l body).
Proof.
  intros H. induction l; simpl; [apply keeps_ret |].
  apply keeps_bind; auto.
Qed.

Lemma keeps_for_range n body :
  keeps_config body -> keeps_config (for_range n body).
Proof.
  intros H. induction n; simpl; [apply keeps_ret |].
  apply keeps_bind; auto.
Qed.

Lemma keeps_sleep t : keeps_config (sleep t).
Proof. unfold sleep. apply keeps_if; [apply keeps_emit | apply keeps_raise]. Qed.

Lemma keeps_set_num_step v s : same_config s (set_num_step v s).
Proof. unfold same_config; simpl; tauto. Qed.

Lemma keeps_set_direction v s : same_config s (set_direction v s).
Proof. unfold same_config; simpl; tauto. Qed.

Lemma keeps_set_actual_speed v s : same_config s (set_actual_speed v s).
Proof. unfold same_config; simpl; tauto. Qed.

Hint Resolve keeps_ret keeps_raise keeps_lift keeps_get_self keeps_emit
  keeps_sleep keeps_set_num_step keeps_set_direction keeps_set_actual_speed
  : config.

Ltac keeps :=
  repeat first
    [ solve [auto with config]
    | apply keeps_bind; [| intros ?]
    | apply keeps_if
    | apply keeps_for_each; intros ?
    | apply keeps_for_range
    | apply keeps_modify; intros ?; cbv beta ].

Lemma keeps_run_one_step : keeps_config run_one_step.
Proof. unfold run_one_step. keeps. Qed.

Lemma keeps_get_direction : keeps_config get_direction.
Proof. unfold get_direction. keeps. destruct (direction _); keeps. Qed.

Hint Resolve keeps_run_one_step keeps_get_direction : config.

Lemma keeps_ramp_step acc_or_dec : keeps_config (ramp_step acc_or_dec).
Proof. unfold ramp_step. keeps. Qed.

Lemma keeps_ramp_loop steps acc_or_dec count :
  keeps_config (ramp_loop steps acc_or_dec count).
Proof.
  intros w.
  remember (Z.to_nat (Qfloor steps + 1 - count)) as n eqn:En.
  revert count w En.
  induction n as [n IH] using lt_wf_ind. intros count w En.
  rewrite ramp_loop_eq.
  destruct (count_le count steps) eqn:Hc; [| apply same_config_refl].
  apply count_le_floor in Hc.
  pose proof (keeps_ramp_step acc_or_dec w) as Hs.
  destruct (ramp_step acc_or_dec w) as [[u | e] w']; simpl in Hs; [| exact Hs].
  eapply same_config_trans; [exact Hs |].
  apply (IH (Z.to_nat (Qfloor steps + 1 - (count + 1)))); [lia | reflexivity].
Qed.

Hint Resolve keeps_ramp_loop : config.

Lemma keeps_linear_acceleration steps acc :
  keeps_config (_linear_acceleration steps acc).
Proof. unfold _linear_acceleration. keeps. Qed.

Lemma keeps_move_with_constant_speed steps speed :
  keeps_config (_move_with_constant_speed steps speed).
Proof. unfold _move_with_constant_speed, cruise_step. keeps. Qed.

Hint Resolve keeps_linear_acceleration keeps_move_with_constant_speed : config.

Lemma keeps_move_ramp_up step_num speed :
  keeps_config (move_ramp_up step_num speed).
Proof. unfold move_ramp_up. keeps. Qed.

Hint Resolve keeps_move_ramp_up : config.

Lemma keeps_move_valid step_num speed :
  keeps_config (move_valid step_num speed).
Proof.
  unfold move_valid. keeps.
  match goal with p : (Q * Q * Z)%type |- _ => destruct p as [[? ?] ?] end.
  keeps.
Qed.

Lemma keeps_move step_num speed : keeps_config (move step_num speed).
Proof.
  unfold move.
  repeat match goal with
         | |- keeps_config (match ?x with _ => _ end) => destruct x
         | |- keeps_config (if ?x then _ else _) => destruct x
         end;
    auto using keeps_move_valid with config.
Qed.

End Frame.

(** C10: every call of [move], with any arguments and whether it returns a
    validation message, returns normally or raises, leaves the pins [inp],
    the table [half], [acceleration_factor], [MIN_SPEED] and [MAX_SPEED]
    (and the remaining attributes other than [num_step], [direction] and
    [actual_speed]) as they were. *)
Theorem move_keeps_configuration (step_num speed : pyval) (w : world) :
  let s := self w in
  let s' := self (snd (move step_num speed w)) in
  inp s' = inp s /\ half s' = half s /\
  acceleration_factor s' = acceleration_factor s /\
  MIN_SPEED s' = MIN_SPEED s /\ MAX_SPEED s' = MAX_SPEED s /\
  s' = moved s (num_step s') (direction s') (actual_speed s').
Proof.
  pose proof (keeps_move step_num speed w) as H.
  unfold same_config in H. cbv zeta.
  destruct (self (snd (move step_num speed w))); destruct (self w).
  unfold moved; simpl in *. intuition congruence.
Qed.

(** ** Rejected calls *)

(** C3: [move(None, 100)], [move(-5, 100)] and [move(100, "abc")] each
    return their validation message and leave the whole world as it was:
    the hardware log gains no pin write and no sleep, and the object keeps
    its step counter, direction and speed. *)
Theorem move_rejects_invalid_arguments (w : world) :
  move PyNone (PyInt 100) w
  = (Normal (PyStr "Invalid input. You should choose a value for *step_num*"), w)
  /\ move (PyInt (-5)) (PyInt 100) w
     = (Normal (PyStr "Invalid input. step_num has to be positive"), w)
  /\ move (PyInt 100) (PyStr "abc") w
     = (Normal (PyStr "Invalid input. speed has to be an integer"), w).
Proof. repeat split; reflexivity. Qed.

(** ** Construction *)

Lemma init_failure_configures_no_pin i1 i2 i3 i4 log e :
  fst (__init__ i1 i2 i3 i4 log) = Raised e ->
  snd (__init__ i1 i2 i3 i4 log) = WiringPiSetup :: log.
Proof.
  unfold __init__. destruct (check_pins i1 i2 i3 i4); simpl; [reflexivity | discriminate].
Qed.

Lemma pin_in_range p :
  existsb (Z.eqb p) (map Z.of_nat (seq 0 17)) = true <-> 0 <= p <= 16.
Proof.
  rewrite existsb_exists. split.
  - intros [x [Hin Hx]]. apply Z.eqb_eq in Hx. subst x.
    apply in_map_iff in Hin. destruct Hin as [n [Hn Hin]].
    apply in_seq in Hin. lia.
  - intros Hp. exists p. split; [| apply Z.eqb_refl].
    apply in_map_iff. exists (Z.to_nat p). split; [lia |].
    apply in_seq. lia.
Qed.

Lemma check_range_spec pins i :
  match check_range i pins with
  | inr _ => Forall (fun p => 0 <= p <= 16) pins
  | inl e => (exists msg, e = ConfigurationError msg)
             /\ Exists (fun p => ~ 0 <= p <= 16) pins
  end.
Proof.
  revert i. induction pins as [| p rest IH]; intros i; cbn [check_range];
    [constructor |].
  destruct (existsb (Z.eqb p) (map Z.of_nat (seq 0 17))) eqn:E.
  - apply pin_in_range in E.
    specialize (IH (i + 1)). destruct (check_range (i + 1) rest).
    + destruct IH as [Hm Hex]. split; [exact Hm | right; exact Hex].
    + constructor; [lia | exact IH].
  - split; [eexists; reflexivity |]. left. intros Hp.
    apply pin_in_range in Hp. congruence.
Qed.

(** Integer pins: [check_pins] accepts exactly four distinct numbers from
    0 to 16 and raises [ConfigurationError] on all others. *)
Lemma check_pins_integers p1 p2 p3 p4 :
  let pins := [p1; p2; p3; p4] in
  match check_pins (PyInt p1) (PyInt p2) (PyInt p3) (PyInt p4) with
  | inr l => l = pins /\ Forall (fun p => 0 <= p <= 16) pins /\ NoDup pins
  | inl e => (exists msg, e = ConfigurationError msg)
             /\ (Exists (fun p => ~ 0 <= p <= 16) pins \/ ~ NoDup pins)
  end.
Proof.
  intros pins. unfold check_pins, try_int, sum_bind. cbn [Py.int].
  fold pins.
  pose proof (check_range_spec pins 0) as Hr.
  destruct (check_range 0 pins) as [e | u]; cbn iota in *.
  - destruct Hr as [Hm Hex]. split; [exact Hm | left; exact Hex].
  - destruct (Nat.eqb (List.length (nodup Z.eq_dec pins)) 4) eqn:E; simpl.
    + apply Nat.eqb_eq in E. repeat split; [exact Hr |].
      apply NoDup_incl_NoDup with (l := nodup Z.eq_dec pins).
      * apply NoDup_nodup.
      * rewrite E. apply Nat.le_refl.
      * intros x Hx. apply nodup_In in Hx. exact Hx.
    + split; [eexists; reflexivity |]. right. intros Hn.
      apply (nodup_fixed_point Z.eq_dec) in Hn. rewrite Hn in E. discriminate.
Qed.

(** C7, at [Stepper(None, 0, 2, 3)]: the first pin identifier has an
    invalid type and the constructor raises [TypeError], not
    [ConfigurationError], because [check_pins] catches [ValueError] only;
    no pin is configured. *)
Theorem init_none_pin_raises_TypeError :
  __init__ PyNone (PyInt 0) (PyInt 2) (PyInt 3) [] = (Raised TypeError, [WiringPiSetup]).
Proof. reflexivity. Qed.

(** ** One step *)

Lemma half_table_lookup m d :
  0 <= m < 8 -> d = 1 \/ d = -1 ->
  exists row,
    Py.index half_table (m * d) = inr row
    /\ Py.index half_table (((m * d) mod 8 + 8) mod 8) = inr row
    /\ List.length row = 4%nat.
Proof.
  intros Hm Hd.
  assert (m = 0 \/ m = 1 \/ m = 2 \/ m = 3 \/ m = 4 \/ m = 5 \/ m = 6 \/ m = 7)
    as Hcases by lia.
  destruct Hd; subst d;
    repeat (destruct Hcases as [-> | Hcases]); try subst m;
    eexists; repeat split; reflexivity.
Qed.

Lemma run_one_step_ok w d :
  wired (self w) -> direction (self w) = Some d -> d = 1 \/ d = -1 ->
  exists row,
    Py.index (half (self w)) ((num_step (self w) mod 8) * d) = inr row
    /\ Py.index (half (self w)) (((num_step (self w) * d) mod 8 + 8) mod 8) = inr row
    /\ run_one_step w
       = (Normal tt, mkWorld (self w) (writes_of (inp (self w)) row ++ hw w)).
Proof.
  intros [Hlen Hhalf] Hdir Hd.
  destruct (half_table_lookup (num_step (self w) mod 8) d) as [row [H1 [H2 Hrow]]];
    [apply Z.mod_pos_bound; lia | exact Hd |].
  exists row. rewrite Hhalf.
  rewrite <- (Z.mul_mod_idemp_l (num_step (self w)) d 8) by lia.
  split; [exact H1 |]. split; [exact H2 |].
  unfold run_one_step, phase_of, bind at 1 2, get_self. rewrite Hdir, Hhalf.
  cbn [lift ret]. 
  destruct (inp (self w)) as [| p0 [| p1 [| p2 [| p3 [| ? ?]]]]]; try discriminate.
  destruct row as [| r0 [| r1 [| r2 [| r3 [| ? ?]]]]]; try discriminate.
  cbn [for_each]. unfold bind. rewrite H1.
  reflexivity.
Qed.

(** C4: for every step counter and either direction, [run_one_step]
    computes [phase = (num_step % 8) * direction], which lies between -7
    and 7; the lookup [half[phase]], with the wrap-around of negative
    indices, is in bounds and yields the row at the normalized index
    [((num_step * direction) mod 8 + 8) mod 8], whose four levels the step
    writes to the four pins. *)
Theorem run_one_step_phase_lookup (w : world) (d : Z) :
  wired (self w) -> direction (self w) = Some d -> d = 1 \/ d = -1 ->
  let phase := (num_step (self w) mod 8) * d in
  phase_of (self w) = inr phase
  /\ -7 <= phase <= 7
  /\ exists row,
       Py.index (half (self w)) phase = inr row
       /\ Py.index (half (self w)) (((num_step (self w) * d) mod 8 + 8) mod 8) = inr row
       /\ run_one_step w
          = (Normal tt, mkWorld (self w) (writes_of (inp (self w)) row ++ hw w)).
Proof.
  intros Hw Hdir Hd phase. split; [| split].
  - unfold phase_of. rewrite Hdir. reflexivity.
  - pose proof (Z.mod_pos_bound (num_step (self w)) 8 ltac:(lia)).
    unfold phase. destruct Hd; subst d; lia.
  - exact (run_one_step_ok w d Hw Hdir Hd).
Qed.

Lemma run_one_step_phase_lookup_witness :
  let w := mkWorld (moved motor1 13 (Some (-1)) 0) [] in
  phase_of (self w) = inr (-5)
  /\ Py.index (half (self w)) (-5) = inr [0; 1; 0; 0]
  /\ Py.index (half (self w)) 3 = inr [0; 1; 0; 0].
Proof.
  intros w.
  destruct (run_one_step_phase_lookup w (-1)) as [Hp [_ [row [H1 [H2 _]]]]];
    [split; reflexivity | reflexivity | right; reflexivity |].
  split; [exact Hp |]. split; reflexivity.
Defined.

(** ** The speeds of a move *)

Lemma step_speeds_app l1 l2 :
  step_speeds (l1 ++ l2) = step_speeds l1 ++ step_speeds l2.
Proof. unfold step_speeds. apply flat_map_app. Qed.

Lemma step_speeds_writes pins row : step_speeds (writes_of pins row) = [].
Proof.
  unfold writes_of. induction (combine pins row) as [| x l IH]; [reflexivity |].
  simpl. rewrite step_speeds_app, IH. reflexivity.
Qed.

Lemma truediv_speed v :
  0 < v ->
  exists t, Py.truediv 1 v = inr t /\ Qle_bool 0 t = true /\ Qinv t = inject_Z v.
Proof.
  intros Hv. destruct v as [| p | p]; try lia.
  exists (1 # p)%Q. repeat split; reflexivity.
Qed.

Lemma moved_id s : moved s (num_step s) (direction s) (actual_speed s) = s.
Proof. destruct s; reflexivity. Qed.

Lemma world_eta w : mkWorld (self w) (hw w) = w.
Proof. destruct w; reflexivity. Qed.

Section Motion.

Variable d : Z.
Hypothesis d_unit : d = 1 \/ d = -1.

Lemma steppable_moved w n v log :
  steppable d w -> steppable d (mkWorld (moved (self w) n (Some d) v) log).
Proof. intros [[Hl Hh] Hd]. repeat split; assumption. Qed.

Lemma ramp_step_ok acc_or_dec w :
  steppable d w -> 0 < actual_speed (self w) ->
  exists log,
    ramp_step acc_or_dec w
    = (Normal tt,
       mkWorld (moved (self w) (num_step (self w) + d) (Some d)
                  (actual_speed (self w) + acceleration_factor (self w) * acc_or_dec))
         (log ++ hw w))
    /\ step_speeds log = [inject_Z (actual_speed (self w))].
Proof.
  intros [Hw Hdir] Hv.
  destruct (truediv_speed _ Hv) as [t [Ht [Hpos Hinv]]].
  destruct (run_one_step_ok w d Hw Hdir d_unit) as [row [_ [_ Hrun]]].
  exists (Sleep t :: writes_of (inp (self w)) row). split.
  - unfold ramp_step, bind at 1 2 3, get_self. rewrite Ht. cbn [lift ret].
    rewrite Hrun. unfold bind, modify_self, get_direction, bind, get_self, sleep.
    cbn [self hw set_actual_speed set_num_step direction]. rewrite Hdir.
    cbn [ret self hw]. rewrite Hpos. unfold emit, moved.
    rewrite !Z.mul_1_l. unfold set_num_step, set_actual_speed. simpl.
    rewrite Hdir. reflexivity.
  - cbn. rewrite step_speeds_writes, Hinv. reflexivity.
Qed.

Lemma cruise_step_ok t v w :
  steppable d w -> Qle_bool 0 t = true -> Qinv t = inject_Z v ->
  exists log,
    cruise_step t w
    = (Normal tt,
       mkWorld (moved (self w) (num_step (self w) + d) (Some d) (actual_speed (self w)))
         (log ++ hw w))
    /\ step_speeds log = [inject_Z v].
Proof.
  intros [Hw Hdir] Hpos Hinv.
  destruct (run_one_step_ok w d Hw Hdir d_unit) as [row [_ [_ Hrun]]].
  exists (Sleep t :: writes_of (inp (self w)) row). split.
  - unfold cruise_step, bind at 1. rewrite Hrun.
    unfold bind, modify_self, get_direction, bind, get_self, sleep.
    cbn [self hw]. rewrite Hdir. cbn [ret self hw]. rewrite Hpos.
    unfold emit, moved. rewrite !Z.mul_1_l. unfold set_num_step. simpl.
    rewrite Hdir. reflexivity.
  - cbn. rewrite step_speeds_writes, Hinv. reflexivity.
Qed.

Lemma ramp_loop_ok n : forall steps acc_or_dec count w,
  steppable d w ->
  Z.of_nat n = Z.max 0 (Qfloor steps + 1 - count) ->
  (forall i, 0 <= i < Z.of_nat n ->
             0 < actual_speed (self w)
                 + i * (acceleration_factor (self w) * acc_or_dec)) ->
  exists log,
    ramp_loop steps acc_or_dec count w
    = (Normal tt,
       mkWorld (moved (self w) (num_step (self w) + Z.of_nat n * d) (Some d)
                  (actual_speed (self w)
                   + Z.of_nat n * (acceleration_factor (self w) * acc_or_dec)))
         (log ++ hw w))
    /\ step_speeds log
       = map inject_Z
           (ramp_speeds n (actual_speed (self w))
              (acceleration_factor (self w) * acc_or_dec)).
Proof.
  induction n as [| n IH]; intros steps acc_or_dec count w Hst Hn Hpos.
  - exists []. split; [| reflexivity].
    rewrite ramp_loop_eq.
    destruct (count_le count steps) eqn:Hc.
    + apply count_le_floor in Hc. lia.
    + destruct Hst as [_ Hdir]. rewrite <- Hdir.
      change (Z.of_nat 0) with 0. rewrite !Z.mul_0_l, !Z.add_0_r.
      rewrite moved_id. cbn [app]. rewrite world_eta. reflexivity.
  - rewrite ramp_loop_eq.
    destruct (count_le count steps) eqn:Hc.
    2:{ assert (~ count <= Qfloor steps) as Hno.
        { intros Hle. apply count_le_floor in Hle. congruence. }
        lia. }
    destruct (ramp_step_ok acc_or_dec w Hst) as [log1 [Hstep Hsp1]].
    { specialize (Hpos 0). lia. }
    rewrite Hstep.
    match type of Hstep with _ = (_, ?x) => set (w1 := x) in * end.
    destruct (IH steps acc_or_dec (count + 1) w1) as [log2 [Hloop Hsp2]].
    + apply steppable_moved. exact Hst.
    + lia.
    + intros i Hi. subst w1. cbn [self moved actual_speed acceleration_factor].
      specialize (Hpos (i + 1)). lia.
    + exists (log2 ++ log1). split.
      * rewrite Hloop. subst w1. cbn [self hw moved num_step actual_speed
          acceleration_factor inp half actspeed MIN_SPEED MAX_SPEED debug
          debug_filename absolute_time].
        rewrite app_assoc. unfold moved. do 3 f_equal; lia.
      * rewrite step_speeds_app, Hsp2, Hsp1. subst w1.
        cbn [self moved actual_speed acceleration_factor ramp_speeds].
        rewrite map_app. reflexivity.
Qed.

Lemma cruise_loop_ok t v n : forall w,
  steppable d w -> Qle_bool 0 t = true -> Qinv t = inject_Z v ->
  exists log,
    for_range n (cruise_step t) w
    = (Normal tt,
       mkWorld (moved (self w) (num_step (self w) + Z.of_nat n * d) (Some d)
                  (actual_speed (self w)))
         (log ++ hw w))
    /\ step_speeds log = repeat (inject_Z v) n.
Proof.
  induction n as [| n IH]; intros w Hst Hpos Hinv.
  - exists []. split; [| reflexivity].
    destruct Hst as [_ Hdir]. rewrite <- Hdir.
    change (Z.of_nat 0) with 0. rewrite Z.mul_0_l, Z.add_0_r, moved_id.
    cbn [app for_range]. unfold ret. rewrite world_eta. reflexivity.
  - cbn [for_range]. unfold bind at 1.
    destruct (cruise_step_ok t v w Hst Hpos Hinv) as [log1 [Hstep Hsp1]].
    rewrite Hstep.
    match type of Hstep with _ = (_, ?x) => set (w1 := x) in * end.
    destruct (IH w1) as [log2 [Hloop Hsp2]]; auto.
    { apply steppable_moved. exact Hst. }
    exists (log2 ++ log1). split.
    + rewrite Hloop. subst w1. cbn [self hw moved num_step actual_speed
        acceleration_factor inp half actspeed MIN_SPEED MAX_SPEED debug
        debug_filename absolute_time].
      rewrite app_assoc. unfold moved. do 3 f_equal; lia.
    + rewrite step_speeds_app, Hsp2, Hsp1.
      change (repeat (inject_Z v) (S n)) with ([inject_Z v] ++ repeat (inject_Z v) n).
      rewrite <- repeat_cons. reflexivity.
Qed.

Lemma accelerate_ok steps k w :
  steppable d w -> 0 < acceleration_factor (self w) ->
  Qfloor steps = k -> 0 <= k ->
  exists log,
    _linear_acceleration steps true w
    = (Normal tt,
       mkWorld (moved (self w) (num_step (self w) + k * d) (Some d)
                  (acceleration_factor (self w) * (k + 1)))
         (log ++ hw w))
    /\ step_speeds log
       = map inject_Z
           (ramp_speeds (Z.to_nat k) (acceleration_factor (self w))
              (acceleration_factor (self w))).
Proof.
  intros Hst Ha Hk Hk0.
  unfold _linear_acceleration. cbn [negb]. unfold bind at 1, modify_self at 1.
  match goal with |- context [bind _ _ ?x] => set (w1 := x) end.
  destruct (ramp_loop_ok (Z.to_nat k) steps 1 1 w1) as [log [Hloop Hsp]].
  - destruct Hst as [Hw Hdir]. split; assumption.
  - lia.
  - intros i Hi. subst w1. cbn [self set_actual_speed actual_speed acceleration_factor].
    nia.
  - exists log. split.
    + unfold bind. rewrite Hloop. unfold ret. subst w1.
      cbn [self hw set_actual_speed moved num_step actual_speed
        acceleration_factor inp half actspeed MIN_SPEED MAX_SPEED debug
        debug_filename absolute_time].
      unfold moved. do 3 f_equal; lia.
    + rewrite Hsp. subst w1.
      cbn [self set_actual_speed actual_speed acceleration_factor].
      rewrite !Z.mul_1_l, Z.mul_1_r. reflexivity.
Qed.

Lemma decelerate_ok steps k w :
  steppable d w -> 0 < acceleration_factor (self w) ->
  Qfloor steps = k -> 0 <= k ->
  (k - 1) * acceleration_factor (self w) < actual_speed (self w) ->
  exists log,
    _linear_acceleration steps false w
    = (Normal tt,
       mkWorld (moved (self w) (num_step (self w) + k * d) (Some d) 0)
         (log ++ hw w))
    /\ step_speeds log
       = map inject_Z
           (ramp_speeds (Z.to_nat k) (actual_speed (self w))
              (- acceleration_factor (self w))).
Proof.
  intros Hst Ha Hk Hk0 Hv.
  unfold _linear_acceleration. cbn [negb]. unfold bind at 1, ret at 1.
  destruct (ramp_loop_ok (Z.to_nat k) steps (-1) 1 w) as [log [Hloop Hsp]].
  - exact Hst.
  - lia.
  - intros i Hi. nia.
  - exists log. split.
    + unfold bind. rewrite Hloop. unfold modify_self.
      cbn [self hw set_actual_speed moved num_step actual_speed
        acceleration_factor inp half actspeed MIN_SPEED MAX_SPEED debug
        debug_filename absolute_time direction].
      unfold moved. rewrite Z2Nat.id by lia. reflexivity.
    + rewrite Hsp. do 2 f_equal. lia.
Qed.

Lemma cruise_ok steps c speed w :
  steppable d w -> 0 < speed -> Py.trunc steps = c -> 0 <= c ->
  exists log,
    _move_with_constant_speed steps speed w
    = (Normal tt,
       mkWorld (moved (self w) (num_step (self w) + c * d) (Some d) speed)
         (log ++ hw w))
    /\ step_speeds log = repeat (inject_Z speed) (Z.to_nat c).
Proof.
  intros Hst Hv Hc Hc0.
  unfold _move_with_constant_speed.
  unfold bind at 1, modify_self at 1, bind at 1, get_self at 1.
  cbn [self set_actual_speed actual_speed].
  destruct (truediv_speed _ Hv) as [t [Ht [Hpos Hinv]]].
  unfold bind at 1. rewrite Ht. cbn [lift ret]. rewrite Hc.
  match goal with |- context [for_range _ _ ?x] => set (w1 := x) end.
  destruct (cruise_loop_ok t speed (Z.to_nat c) w1) as [log [Hloop Hsp]].
  - destruct Hst as [Hw Hdir]. split; assumption.
  - exact Hpos.
  - exact Hinv.
  - exists log. split; [| exact Hsp].
    rewrite Hloop. subst w1.
    cbn [self hw set_actual_speed moved num_step actual_speed
      acceleration_factor inp half actspeed MIN_SPEED MAX_SPEED debug
      debug_filename absolute_time].
    unfold moved. rewrite Z2Nat.id by lia. reflexivity.
Qed.

End Motion.

(** ** The arithmetic of the plan *)

Lemma trunc_truediv S a :
  0 < a -> 0 <= S ->
  exists q, Py.truediv S a = inr q /\ Py.trunc q = S / a.
Proof.
  intros Ha HS. unfold Py.truediv.
  destruct (Z.eqb_spec a 0); [lia |].
  eexists; split; [reflexivity |].
  destruct a as [| p | p]; try lia.
  unfold Py.trunc, Qle_bool, Qdiv, Qmult, Qinv, inject_Z, Qfloor. cbn [Qnum Qden].
  change (1 * p)%positive with p. rewrite !Z.mul_1_r, Z.mul_0_l.
  destruct (Z.leb_spec 0 S); [reflexivity | lia].
Qed.

Lemma half_le k N : Qle_bool (inject_Z k) (inject_Z N / 2) = (2 * k <=? N).
Proof.
  unfold Qle_bool, Qdiv, Qmult, Qinv, inject_Z. cbn [Qnum Qden].
  change (1 * 2)%positive with 2%positive. rewrite !Z.mul_1_r.
  destruct (Z.leb_spec (k * 2) N), (Z.leb_spec (2 * k) N); try reflexivity; lia.
Qed.

Lemma floor_half N : Qfloor (inject_Z N / 2) = N / 2.
Proof.
  unfold Qdiv, Qmult, Qinv, inject_Z, Qfloor. cbn [Qnum Qden].
  change (1 * 2)%positive with 2%positive. rewrite Z.mul_1_r. reflexivity.
Qed.

Lemma rest_short N :
  (inject_Z N - 2 * (inject_Z N / 2) == 0)%Q
  /\ Py.trunc (inject_Z N - 2 * (inject_Z N / 2)) = 0.
Proof.
  split.
  - field.
  - unfold Py.trunc, Qle_bool, Qminus, Qplus, Qopp, Qdiv, Qmult, Qinv, inject_Z,
      Qfloor. cbn [Qnum Qden].
    replace (N * Z.pos (1 * (1 * 2)) + - (2 * (N * 1)) * 1) with 0 by lia.
    reflexivity.
Qed.

Lemma rest_long N k :
  2 * k <= N -> Py.trunc (inject_Z N - 2 * inject_Z k) = N - 2 * k.
Proof.
  intros H.
  unfold Py.trunc, Qle_bool, Qminus, Qplus, Qopp, Qmult, inject_Z, Qfloor.
  cbn [Qnum Qden]. change (1 * (1 * 1))%positive with 1%positive.
  change (1 * 1)%positive with 1%positive.
  rewrite !Z.mul_1_r, Z.div_1_r.
  destruct (Z.leb_spec 0 (N + - (2 * k))); lia.
Qed.

(** ** The plan of a move in closed form *)

Lemma clamp_min s x : MIN_SPEED s <= clamp s x.
Proof.
  unfold clamp.
  destruct (x >? MAX_SPEED s);
    match goal with |- _ <= (if ?y <? ?m then _ else _) =>
      destruct (Z.ltb_spec y m); lia end.
Qed.

Lemma target_speed_pos s speed : limits_ok s -> 0 < target_speed s speed.
Proof.
  intros [_ Hmin]. unfold target_speed. pose proof (clamp_min s (Z.abs speed)). lia.
Qed.

Section Plan.

Variables (s : Stepper) (N speed : Z).
Hypothesis limits : limits_ok s.
Hypothesis N_nonneg : 0 <= N.

Let a := acceleration_factor s.
Let S := target_speed s speed.

Lemma plan_facts :
  0 < a /\ 0 < S /\ 0 <= S / a /\ a * (S / a) <= S < a * (S / a + 1).
Proof.
  destruct limits as [Ha _]. pose proof (target_speed_pos s speed limits) as HS.
  fold a in Ha. fold S in HS.
  pose proof (Z.div_pos S a ltac:(lia) Ha).
  pose proof (Z.mul_div_le S a Ha).
  pose proof (Z.mul_succ_div_gt S a Ha).
  repeat split; lia.
Qed.

Lemma ramp_steps_nonneg : 0 <= ramp_steps s N speed.
Proof.
  destruct plan_facts as [Ha [HS [Hq _]]].
  unfold ramp_steps. destruct (short_move s N speed); [| exact Hq].
  apply Z.div_pos; lia.
Qed.

Lemma ramp_arg_floor : Qfloor (ramp_arg s N speed) = ramp_steps s N speed.
Proof.
  unfold ramp_arg, ramp_steps. destruct (short_move s N speed).
  - apply floor_half.
  - apply Qfloor_Z.
Qed.

Lemma cruise_steps_nonneg : 0 <= cruise_steps s N speed.
Proof.
  unfold cruise_steps, short_move.
  destruct (Z.leb_spec (2 * (target_speed s speed / acceleration_factor s)) N);
    cbn [negb]; lia.
Qed.

Lemma cruise_arg_trunc : Py.trunc (cruise_arg s N speed) = cruise_steps s N speed.
Proof.
  unfold cruise_arg, ramp_arg, cruise_steps, short_move.
  destruct (Z.leb_spec (2 * (target_speed s speed / acceleration_factor s)) N);
    cbn [negb].
  - apply rest_long. assumption.
  - apply rest_short.
Qed.

(** The steps of the three phases add up to [N], or to [N - 1] for an
    odd [N] in a short move. *)
Lemma total_steps :
  2 * ramp_steps s N speed + cruise_steps s N speed
  = if short_move s N speed then 2 * (N / 2) else N.
Proof.
  unfold ramp_steps, cruise_steps. destruct (short_move s N speed); lia.
Qed.

Lemma reached_speed_short :
  short_move s N speed = true ->
  reached_speed s N speed = a * (N / 2 + 1) /\ a * (N / 2 + 1) <= S.
Proof.
  intros Hshort. destruct plan_facts as [Ha [HS [Hq [Hlo Hhi]]]].
  unfold reached_speed, ramp_end_speed, ramp_steps. rewrite Hshort.
  fold a S. unfold short_move in Hshort. fold a S in Hshort.
  destruct (Z.leb_spec (2 * (S / a)) N); try discriminate.
  assert (N / 2 + 1 <= S / a) as Hk.
  { pose proof (Z.mul_div_le N 2 ltac:(lia)).
    pose proof (Z.mul_succ_div_gt N 2 ltac:(lia)). lia. }
  assert (a * (N / 2 + 1) <= a * (S / a)) by (apply Z.mul_le_mono_nonneg_l; lia).
  split; lia.
Qed.

Lemma reached_speed_long :
  short_move s N speed = false -> reached_speed s N speed = S.
Proof.
  intros Hlong. destruct plan_facts as [Ha [HS [Hq [Hlo Hhi]]]].
  unfold reached_speed, ramp_end_speed, ramp_steps. rewrite Hlong.
  fold a S. lia.
Qed.

Lemma reached_speed_bounds :
  0 < reached_speed s N speed <= S
  /\ (ramp_steps s N speed - 1) * a < reached_speed s N speed
  /\ a * ramp_steps s N speed <= S.
Proof.
  destruct plan_facts as [Ha [HS [Hq [Hlo Hhi]]]].
  pose proof ramp_steps_nonneg as Hk.
  destruct (short_move s N speed) eqn:Hm.
  - destruct (reached_speed_short Hm) as [Hr Hle].
    unfold ramp_steps in *. rewrite Hm in *. rewrite Hr. nia.
  - rewrite (reached_speed_long Hm).
    unfold ramp_steps in *. rewrite Hm in *. fold a S. nia.
Qed.

End Plan.

(** ** The three phases of [move] *)

Lemma heading_unit speed : heading speed = 1 \/ heading speed = -1.
Proof. unfold heading. destruct (speed >=? 0); auto. Qed.

Lemma min_as_test x y : (if x >? y then y else x) = Z.min x y.
Proof. rewrite Z.gtb_ltb. destruct (Z.ltb_spec y x); lia. Qed.

Lemma move_ramp_up_ok N speed w :
  wired (self w) -> limits_ok (self w) -> 0 <= N ->
  let s := self w in
  let d := heading speed in
  exists log,
    move_ramp_up N speed w
    = (Normal (ramp_arg s N speed, cruise_arg s N speed, reached_speed s N speed),
       mkWorld (moved s (num_step s + ramp_steps s N speed * d) (Some d)
                  (ramp_end_speed s N speed))
         (log ++ hw w))
    /\ step_speeds log
       = map inject_Z
           (ramp_speeds (Z.to_nat (ramp_steps s N speed))
              (acceleration_factor s) (acceleration_factor s)).
Proof.
  intros Hw Hlim HN s d.
  destruct (plan_facts s speed Hlim) as [Ha [HS [Hq _]]].
  unfold move_ramp_up.
  (* the direction *)
  set (w1 := mkWorld (set_direction (Some d) s) (hw w)).
  match goal with |- context [bind _ (fun _ => bind _ ?k) w] => set (rest := k) end.
  assert (forall k : Z -> M (Q * Q * Z),
    bind (if speed >=? 0 then modify_self (set_direction (Some 1)) else ret tt)
      (fun _ => bind (if speed <? 0
                      then bind (modify_self (set_direction (Some (-1))))
                             (fun _ => ret (Z.abs speed))
                      else ret speed) k) w
    = k (Z.abs speed) w1) as Hdir.
  { intros k. subst w1 d. unfold heading. rewrite Z.geb_leb.
    destruct (Z.leb_spec 0 speed) as [Hs | Hs].
    - destruct (Z.ltb_spec speed 0); [lia |].
      rewrite Z.abs_eq by lia. reflexivity.
    - destruct (Z.ltb_spec speed 0); [| lia].
      reflexivity. }
  rewrite Hdir. subst rest. cbv beta.
  unfold bind at 1, get_self at 1. cbn [self].
  change (clamp (self w1) (Z.abs speed)) with (target_speed s speed).
  change (acceleration_factor (self w1)) with (acceleration_factor s).
  destruct (trunc_truediv (target_speed s speed) (acceleration_factor s))
    as [q [Hq1 Hq2]]; [lia | lia |].
  unfold bind at 1. rewrite Hq1. cbn [lift ret]. rewrite Hq2, half_le.
  change (if negb (2 * (target_speed s speed / acceleration_factor s) <=? N)
          then (inject_Z N / 2)%Q
          else inject_Z (target_speed s speed / acceleration_factor s))
    with (ramp_arg s N speed).
  change (inject_Z N - 2 * ramp_arg s N speed)%Q with (cruise_arg s N speed).
  destruct (accelerate_ok d (heading_unit speed) (ramp_arg s N speed)
              (ramp_steps s N speed) w1) as [log [Hacc Hsp]].
  - split; [exact Hw | reflexivity].
  - exact Ha.
  - apply ramp_arg_floor.
  - apply ramp_steps_nonneg; assumption.
  - exists log. split; [| exact Hsp].
    unfold bind at 1. rewrite Hacc. unfold bind, get_self, ret.
    cbn [self moved actual_speed]. rewrite min_as_test.
    subst w1. cbn [self hw set_direction moved num_step actual_speed
      acceleration_factor inp half actspeed MIN_SPEED MAX_SPEED debug
      debug_filename absolute_time].
    reflexivity.
Qed.

Lemma move_valid_ok N speed w :
  wired (self w) -> limits_ok (self w) -> 0 <= N ->
  let s := self w in
  let d := heading speed in
  let k := Z.to_nat (ramp_steps s N speed) in
  exists log,
    move_valid N speed w
    = (Normal PyNone,
       mkWorld (moved s
                  (num_step s
                   + (2 * ramp_steps s N speed + cruise_steps s N speed) * d)
                  (Some d) 0)
         (log ++ hw w))
    /\ step_speeds log
       = map inject_Z
           (ramp_speeds k (reached_speed s N speed) (- acceleration_factor s)
            ++ repeat (reached_speed s N speed) (Z.to_nat (cruise_steps s N speed))
            ++ ramp_speeds k (acceleration_factor s) (acceleration_factor s)).
Proof.
  intros Hw Hlim HN s d k.
  destruct (plan_facts s speed Hlim) as [Ha _].
  destruct (reached_speed_bounds s N speed Hlim HN) as [[Hr0 Hr1] [Hr2 _]].
  destruct (move_ramp_up_ok N speed w Hw Hlim HN) as [log1 [H1 Hsp1]].
  fold s d in H1, Hsp1.
  unfold move_valid, bind at 1. rewrite H1. cbv iota beta.
  match type of H1 with _ = (_, ?x) => set (w1 := x) in * end.
  assert (steppable d w1) as Hst1 by (split; [exact Hw | reflexivity]).
  destruct (cruise_ok d (heading_unit speed) (cruise_arg s N speed)
              (cruise_steps s N speed) (reached_speed s N speed) w1)
    as [log2 [H2 Hsp2]].
  - exact Hst1.
  - exact Hr0.
  - apply cruise_arg_trunc; assumption.
  - apply cruise_steps_nonneg.
  - unfold bind at 1. rewrite H2.
    match type of H2 with _ = (_, ?x) => set (w2 := x) in * end.
    assert (steppable d w2) as Hst2 by (split; [exact Hw | reflexivity]).
    destruct (decelerate_ok d (heading_unit speed) (ramp_arg s N speed)
                (ramp_steps s N speed) w2) as [log3 [H3 Hsp3]].
    + exact Hst2.
    + exact Ha.
    + apply ramp_arg_floor.
    + apply ramp_steps_nonneg; assumption.
    + exact Hr2.
    + exists (log3 ++ log2 ++ log1). split.
      * unfold bind at 1. rewrite H3. unfold ret. subst w2 w1.
        cbn [self hw moved num_step actual_speed
          acceleration_factor inp half actspeed MIN_SPEED MAX_SPEED debug
          debug_filename absolute_time].
        rewrite <- !app_assoc. unfold moved. do 3 f_equal. lia.
      * rewrite !step_speeds_app, Hsp3, Hsp2, Hsp1. subst w2 w1.
        cbn [self moved actual_speed acceleration_factor].
        rewrite !map_app, map_repeat. reflexivity.
Qed.

Lemma move_integers N speed w :
  0 <= N -> move (PyInt N) (PyInt speed) w = move_valid N speed w.
Proof.
  intros HN. unfold move. cbn [Py.int].
  destruct (Z.ltb_spec N 0); [lia | reflexivity].
Qed.

(** A call with integer arguments on a wired object with sensible limits
    returns normally, in closed form. *)
Lemma move_ok N speed w :
  wired (self w) -> limits_ok (self w) -> 0 <= N ->
  let s := self w in
  let d := heading speed in
  exists log,
    move (PyInt N) (PyInt speed) w
    = (Normal PyNone,
       mkWorld (moved s (num_step s + steps_taken s N speed * d) (Some d) 0)
         (log ++ hw w))
    /\ step_speeds log = map inject_Z (profile s N speed).
Proof.
  intros Hw Hlim HN. rewrite move_integers by exact HN.
  exact (move_valid_ok N speed w Hw Hlim HN).
Qed.

Lemma ramp_speeds_In n : forall v delta x,
  In x (ramp_speeds n v delta) ->
  exists i, 0 <= i < Z.of_nat n /\ x = v + i * delta.
Proof.
  induction n as [| n IH]; intros v delta x Hin; [destruct Hin |].
  cbn [ramp_speeds] in Hin. apply in_app_or in Hin. destruct Hin as [Hin | Hin].
  - destruct (IH _ _ _ Hin) as [i [Hi Hx]]. exists (i + 1). split; lia.
  - destruct Hin as [<- | []]. exists 0. split; lia.
Qed.

Lemma profile_bounds s N speed :
  limits_ok s -> 0 <= N ->
  Forall (fun x => 0 < x <= target_speed s speed) (profile s N speed).
Proof.
  intros Hlim HN.
  destruct (plan_facts s speed Hlim) as [Ha [HS _]].
  destruct (reached_speed_bounds s N speed Hlim HN) as [[Hr0 Hr1] [Hr2 Hr3]].
  pose proof (ramp_steps_nonneg s N speed Hlim HN) as Hk.
  unfold profile. rewrite !Forall_app. repeat split.
  - apply Forall_forall. intros x Hin.
    destruct (ramp_speeds_In _ _ _ _ Hin) as [i [Hi ->]].
    rewrite Z2Nat.id in Hi by lia. nia.
  - apply Forall_forall. intros x Hin. apply repeat_spec in Hin. subst x. lia.
  - apply Forall_forall. intros x Hin.
    destruct (ramp_speeds_In _ _ _ _ Hin) as [i [Hi ->]].
    rewrite Z2Nat.id in Hi by lia. nia.
Qed.

Lemma peak_speed_le log (L : list Z) (b : Z) :
  step_speeds log = map inject_Z L ->
  0 <= b -> Forall (fun x => x <= b) L ->
  (peak_speed log <= inject_Z b)%Q.
Proof.
  intros Hsp Hb HL. unfold peak_speed. rewrite Hsp. clear Hsp.
  induction HL as [| x L Hx HL IH]; cbn [map fold_right].
  - change 0%Q with (inject_Z 0). rewrite <- Zle_Qle. exact Hb.
  - apply Q.max_lub; [| exact IH]. rewrite <- Zle_Qle. exact Hx.
Qed.

Lemma plan_moved s n dir v N speed :
  ramp_steps (moved s n dir v) N speed = ramp_steps s N speed
  /\ cruise_steps (moved s n dir v) N speed = cruise_steps s N speed.
Proof. split; reflexivity. Qed.

Lemma plan_opp s N speed :
  ramp_steps s N (- speed) = ramp_steps s N speed
  /\ cruise_steps s N (- speed) = cruise_steps s N speed.
Proof.
  unfold ramp_steps, cruise_steps, short_move, target_speed.
  rewrite Z.abs_opp. split; reflexivity.
Qed.

Lemma heading_opp speed : speed <> 0 -> heading (- speed) = - heading speed.
Proof.
  intros H. unfold heading. rewrite !Z.geb_leb.
  destruct (Z.leb_spec 0 speed), (Z.leb_spec 0 (- speed)); lia.
Qed.

(** ** The step counter *)

(** The counter moves by the steps of the three phases: [N] of them, or
    [N - 1] for an odd [N] in a short move. *)
Lemma move_step_counter N speed w :
  wired (self w) -> limits_ok (self w) -> 0 <= N ->
  let s := self w in
  let r := move (PyInt N) (PyInt speed) w in
  fst r = Normal PyNone
  /\ num_step (self (snd r))
     = num_step s
       + heading speed * (if short_move s N speed then 2 * (N / 2) else N).
Proof.
  intros Hw Hlim HN s r.
  destruct (move_ok N speed w Hw Hlim HN) as [log [Hm _]].
  subst r. rewrite Hm. cbn [fst snd self moved num_step]. split; [reflexivity |].
  unfold steps_taken. fold s. rewrite (total_steps s N speed). lia.
Qed.

(** C1, at [move(5, 100)] on a new [Stepper(7, 0, 2, 3)]: the call returns
    normally after 4 steps and the step counter has changed by 4, not by
    [direction * stepCount = 5]: [acceleration_steps] is 2.5, each ramp
    runs 2 steps and the cruise none. *)
Theorem move_5_100_takes_4_steps :
  let r := move (PyInt 5) (PyInt 100) world1 in
  fst r = Normal PyNone
  /\ direction (self (snd r)) = Some 1
  /\ num_step (self (snd r)) = num_step (self world1) + 4
  /\ steps_done (hw (snd r)) = 4%nat.
Proof. vm_compute. repeat split. Qed.

(** ** The cruise speed *)

Lemma cruise_speed_reached N speed w :
  wired (self w) -> limits_ok (self w) -> 0 <= N ->
  cruise_speed N speed w = Some (reached_speed (self w) N speed).
Proof.
  intros Hw Hlim HN.
  destruct (move_ramp_up_ok N speed w Hw Hlim HN) as [log [H _]].
  unfold cruise_speed. rewrite H. reflexivity.
Qed.





(** ** Short moves *)

(** C5 as stated fails at [move(18, 10)]: [floor(10 / 1) = 10 > 18 / 2],
    the ramp runs 9 steps and leaves the speed at 10, at which the first
    step of the deceleration is timed: the peak equals the target speed. *)
Lemma short_move_18_10_peak_equals_target :
  let S := target_speed motor1 10 in
  ~ (18 < 2 * (S / acceleration_factor motor1) ->
     (peak_speed (hw (snd (move (PyInt 18) (PyInt 10) world1))) < inject_Z S)%Q).
Proof.
  intros S H. assert (18 < 2 * (S / acceleration_factor motor1)) as Hs by reflexivity.
  specialize (H Hs). vm_compute in H. discriminate H.
Qed.

Lemma peak_speed_ge log (L : list Z) (x : Z) :
  step_speeds log = map inject_Z L -> In x L ->
  (inject_Z x <= peak_speed log)%Q.
Proof.
  intros Hsp Hin. unfold peak_speed. rewrite Hsp. clear Hsp.
  induction L as [| y L IH]; [destruct Hin |].
  cbn [map fold_right]. destruct Hin as [-> | Hin].
  - apply Q.le_max_l.
  - eapply Qle_trans; [apply IH; exact Hin | apply Q.le_max_r].
Qed.

Lemma profile_le_reached s N V :
  limits_ok s -> 0 <= N ->
  Forall (fun x => x <= reached_speed s N V) (profile s N V).
Proof.
  intros Hlim HN.
  destruct (plan_facts s V Hlim) as [Ha _].
  destruct (reached_speed_bounds s N V Hlim HN) as [_ [_ Hr3]].
  pose proof (ramp_steps_nonneg s N V Hlim HN) as Hk.
  assert (acceleration_factor s * ramp_steps s N V <= reached_speed s N V) as Hr
    by (unfold reached_speed, ramp_end_speed; lia).
  unfold profile. rewrite !Forall_app. repeat split;
    apply Forall_forall; intros x Hin.
  - destruct (ramp_speeds_In _ _ _ _ Hin) as [i [Hi ->]]. nia.
  - apply repeat_spec in Hin. subst x. lia.
  - destruct (ramp_speeds_In _ _ _ _ Hin) as [i [Hi ->]].
    rewrite Z2Nat.id in Hi by lia. nia.
Qed.

Lemma profile_reaches s N V :
  1 <= ramp_steps s N V -> In (reached_speed s N V) (profile s N V).
Proof.
  intros Hk. unfold profile.
  destruct (Z.to_nat (ramp_steps s N V)) as [| k] eqn:E; [lia |].
  cbn [ramp_speeds]. apply in_or_app. left. apply in_or_app. right. left.
  reflexivity.
Qed.

(** C5, amended: in a short move ([floor(S / acceleration_factor) >
    stepCount / 2] for the clamped speed [S], step count and limits below
    2^53) [constant_speed_steps] is 0 and the cruise runs no step; the
    ramp leaves the speed at
    [top = acceleration_factor * (floor(stepCount / 2) + 1) <= S], which
    is the cruise speed and, for [stepCount >= 2], the peak speed at which
    a step is timed.  The peak is strictly less than [S] except when
    [S = top] and [stepCount >= 2], where it equals [S]. *)
Theorem short_move_has_no_cruise_and_peak_at_most_target
  (N speed : Z) (w : world) :
  wired (self w) -> limits_ok (self w) -> 0 <= N -> float_exact (self w) N ->
  let s := self w in
  let S := target_speed s speed in
  let top := acceleration_factor s * (N / 2 + 1) in
  N < 2 * (S / acceleration_factor s) ->
  (exists acc c v w1,
      move_ramp_up N speed w = (Normal (acc, c, v), w1)
      /\ (c == 0)%Q /\ Z.to_nat (Py.trunc c) = 0%nat
      /\ actual_speed (self w1) = top /\ v = top)
  /\ top <= S
  /\ (exists log w2,
         move (PyInt N) (PyInt speed) w = (Normal PyNone, w2)
         /\ hw w2 = log ++ hw w
         /\ (2 <= N -> (peak_speed log == inject_Z top)%Q)
         /\ (top < S \/ N < 2 -> (peak_speed log < inject_Z S)%Q)
         /\ (top = S -> 2 <= N -> (peak_speed log == inject_Z S)%Q)).
Proof.
  intros Hw Hlim HN _ s S top Hshort.
  assert (short_move s N speed = true) as Hm.
  { unfold short_move. fold S.
    destruct (Z.leb_spec (2 * (S / acceleration_factor s)) N); [lia | reflexivity]. }
  destruct (reached_speed_short s N speed Hlim Hm) as [Hr Hle].
  fold S in Hle. fold top in Hr, Hle.
  assert (ramp_steps s N speed = N / 2) as Hk
    by (unfold ramp_steps; rewrite Hm; reflexivity).
  pose proof (target_speed_pos s speed Hlim) as HS. fold S in HS.
  split; [| split; [exact Hle |]].
  - destruct (move_ramp_up_ok N speed w Hw Hlim HN) as [log [H _]].
    do 4 eexists. split; [exact H |]. fold s.
    unfold cruise_arg, ramp_arg. rewrite Hm.
    destruct (rest_short N) as [Hz Ht]. rewrite Ht.
    split; [exact Hz |]. split; [reflexivity |].
    cbn [self moved actual_speed]. split; [| exact Hr].
    unfold ramp_end_speed. rewrite Hk. reflexivity.
  - destruct (move_ok N speed w Hw Hlim HN) as [log [H Hsp]]. fold s in Hsp.
    do 2 eexists. split; [exact H |]. split; [reflexivity |].
    assert (peak_speed log <= inject_Z top)%Q as Hpeak.
    { apply (peak_speed_le log (profile s N speed)); [exact Hsp | |].
      - pose proof (proj1 Hlim) as Ha. fold s in Ha.
        pose proof (Z.div_pos N 2 HN ltac:(lia)).
        unfold top. nia.
      - rewrite <- Hr. apply profile_le_reached; assumption. }
    assert (2 <= N -> (peak_speed log == inject_Z top)%Q) as Hexact.
    { intros H2. apply Qle_antisym; [exact Hpeak |].
      apply (peak_speed_ge log (profile s N speed)); [exact Hsp |].
      rewrite <- Hr. apply profile_reaches. rewrite Hk.
      apply Z.div_le_lower_bound; lia. }
    split; [exact Hexact |]. split.
    + intros [Hlt | Hsmall].
      * eapply Qle_lt_trans; [exact Hpeak |]. rewrite <- Zlt_Qlt. exact Hlt.
      * assert (peak_speed log <= inject_Z 0)%Q as H0.
        { apply (peak_speed_le log (profile s N speed)); [exact Hsp | lia |].
          assert (N / 2 = 0) as Hz by (apply Z.div_small; lia).
          unfold profile, cruise_steps. rewrite Hm, Hk, Hz. constructor. }
        eapply Qle_lt_trans; [exact H0 |]. rewrite <- Zlt_Qlt. exact HS.
    + intros <- H2. apply Hexact. exact H2.
Qed.

Lemma short_move_has_no_cruise_and_peak_at_most_target_witness :
  (exists acc c v w1,
      move_ramp_up 18 10 world1 = (Normal (acc, c, v), w1)
      /\ (c == 0)%Q /\ Z.to_nat (Py.trunc c) = 0%nat
      /\ actual_speed (self w1) = 10 /\ v = 10)
  /\ 10 <= 10
  /\ (exists log w2,
         move (PyInt 18) (PyInt 10) world1 = (Normal PyNone, w2)
         /\ hw w2 = log ++ hw world1
         /\ (2 <= 18 -> (peak_speed log == inject_Z 10)%Q)
         /\ (10 < 10 \/ 18 < 2 -> (peak_speed log < inject_Z 10)%Q)
         /\ (10 = 10 -> 2 <= 18 -> (peak_speed log == inject_Z 10)%Q)).
Proof.
  apply (short_move_has_no_cruise_and_peak_at_most_target 18 10 world1);
    [split; reflexivity | split; reflexivity | lia | repeat split | reflexivity].
Defined.

(** C6 as stated fails: in [move(20, 100)] the peak speed is not 10. *)
Lemma move_20_100_peak_is_not_10 :
  ~ (peak_speed (hw (snd (move (PyInt 20) (PyInt 100) world1))) == 10)%Q.
Proof. vm_compute. discriminate. Qed.

(** C6, amended: [move(20, 100)] with [acceleration_factor = 1],
    [MIN_SPEED = 10], [MAX_SPEED = 500] clamps [acceleration_steps] to 10,
    gives [constant_speed_steps = 0], runs 20 steps, 10 up at the speeds 1
    to 10 and 10 down at the speeds 11 to 2, so that the speed left by the
    ramp, the cruise speed and the peak speed are 11, and changes the step
    counter by +20. *)
Theorem move_20_100_profile :
  let r := move (PyInt 20) (PyInt 100) world1 in
  (exists acc c,
      fst (move_ramp_up 20 100 world1) = Normal (acc, c, 11)
      /\ (acc == 10)%Q /\ (c == 0)%Q /\ Z.to_nat (Py.trunc c) = 0%nat)
  /\ actual_speed (self (snd (move_ramp_up 20 100 world1))) = 11
  /\ fst r = Normal PyNone
  /\ steps_done (hw (snd r)) = 20%nat
  /\ rev (step_speeds (hw (snd r)))
     = map inject_Z [1; 2; 3; 4; 5; 6; 7; 8; 9; 10; 11; 10; 9; 8; 7; 6; 5; 4; 3; 2]
  /\ (peak_speed (hw (snd r)) == 11)%Q
  /\ num_step (self (snd r)) = num_step (self world1) + 20
  /\ actual_speed (self (snd r)) = 0.
Proof.
  cbv zeta. split.
  - exists (20 # 2)%Q, (0 # 2)%Q. repeat split.
  - vm_compute. repeat split.
Qed.

(** ** Delays *)

Lemma ramp_steps_positive s N speed :
  limits_ok s -> 2 <= N -> acceleration_factor s <= target_speed s speed ->
  1 <= ramp_steps s N speed.
Proof.
  intros [Ha _] HN HS. unfold ramp_steps.
  destruct (short_move s N speed);
    apply Z.div_le_lower_bound; lia.
Qed.

Lemma profile_first s N speed :
  1 <= ramp_steps s N speed ->
  last (map inject_Z (profile s N speed)) 0%Q = inject_Z (acceleration_factor s).
Proof.
  intros Hk. unfold profile.
  destruct (Z.to_nat (ramp_steps s N speed)) as [| k] eqn:E; [lia |].
  cbn [ramp_speeds]. rewrite !app_assoc, map_app. cbn [map].
  apply last_last.
Qed.

(** C8: a valid call on a wired object with a positive acceleration factor
    and a positive minimal speed, with the step count and the limits below
    2^53, returns normally, so that no division raises; every step is timed at a strictly positive speed, the first
    one of the acceleration at [acceleration_factor]; the cruise delay is
    computed from a strictly positive speed; and the speed is 0 once the
    call is over, after the last step of the deceleration. *)
Theorem move_delays_divide_by_positive_speed (N speed : Z) (w : world) :
  wired (self w) -> limits_ok (self w) -> 0 <= N -> float_exact (self w) N ->
  let s := self w in
  exists log w',
    move (PyInt N) (PyInt speed) w = (Normal PyNone, w')
    /\ hw w' = log ++ hw w
    /\ Forall (fun q => (0 < q)%Q) (step_speeds log)
    /\ (exists v, cruise_speed N speed w = Some v /\ 0 < v)
    /\ (2 <= N -> acceleration_factor s <= target_speed s speed ->
        last (step_speeds log) 0%Q = inject_Z (acceleration_factor s))
    /\ actual_speed (self w') = 0.
Proof.
  intros Hw Hlim HN _ s.
  destruct (move_ok N speed w Hw Hlim HN) as [log [H Hsp]]. fold s in H, Hsp.
  do 2 eexists. split; [exact H |]. split; [reflexivity |].
  split; [| split; [| split; [| reflexivity]]].
  - rewrite Hsp. apply Forall_map.
    eapply Forall_impl; [| apply (profile_bounds s N speed Hlim HN)].
    intros x [Hx _]. change 0%Q with (inject_Z 0). rewrite <- Zlt_Qlt. exact Hx.
  - exists (reached_speed s N speed). split.
    + apply cruise_speed_reached; assumption.
    + apply (reached_speed_bounds s N speed Hlim HN).
  - intros H2 HS. rewrite Hsp. apply profile_first.
    apply ramp_steps_positive; assumption.
Qed.

Lemma move_delays_divide_by_positive_speed_witness :
  exists log w',
    move (PyInt 25) (PyInt (-3)) world1 = (Normal PyNone, w')
    /\ hw w' = log ++ hw world1
    /\ Forall (fun q => (0 < q)%Q) (step_speeds log)
    /\ (exists v, cruise_speed 25 (-3) world1 = Some v /\ 0 < v)
    /\ (2 <= 25 -> acceleration_factor motor1 <= target_speed motor1 (-3) ->
        last (step_speeds log) 0%Q = inject_Z (acceleration_factor motor1))
    /\ actual_speed (self w') = 0.
Proof.
  apply (move_delays_divide_by_positive_speed 25 (-3) world1);
    [split; reflexivity | split; reflexivity | lia | repeat split].
Defined.

(** ** There and back *)

(** C9 as stated fails at [S = 0]: [move(2, 0)] and [move(2, -0)] are the
    same call, both run in direction +1, and the counter ends 4 steps
    away. *)
Lemma move_zero_speed_twice_does_not_return :
  let w1 := snd (move (PyInt 2) (PyInt 0) world1) in
  let w2 := snd (move (PyInt 2) (PyInt (- 0)) w1) in
  num_step (self w2) <> num_step (self world1).
Proof. vm_compute. discriminate. Qed.

Lemma steps_taken_back s n dir v N speed :
  steps_taken (moved s n dir v) N (- speed) = steps_taken s N speed.
Proof.
  unfold steps_taken.
  destruct (plan_moved s n dir v N (- speed)) as [-> ->].
  destruct (plan_opp s N speed) as [-> ->]. reflexivity.
Qed.

(** C9, amended: for every [N >= 0], every speed [S] other than 0 and
    every starting state of a wired object with sensible limits (step
    count and limits below 2^53),
    [move(N, S)] followed by [move(N, -S)] returns normally twice and
    brings the step counter back to its original value. *)
Theorem move_there_and_back (N S : Z) (w : world) :
  wired (self w) -> limits_ok (self w) -> 0 <= N -> float_exact (self w) N ->
  S <> 0 ->
  let r1 := move (PyInt N) (PyInt S) w in
  let r2 := move (PyInt N) (PyInt (- S)) (snd r1) in
  fst r1 = Normal PyNone
  /\ fst r2 = Normal PyNone
  /\ num_step (self (snd r2)) = num_step (self w).
Proof.
  intros Hw Hlim HN _ HS r1 r2.
  destruct (move_ok N S w Hw Hlim HN) as [log1 [H1 _]].
  subst r2 r1. rewrite H1. cbn [fst snd].
  match type of H1 with _ = (_, ?x) => set (w1 := x) end.
  destruct (move_ok N (- S) w1) as [log2 [H2 _]]; [exact Hw | exact Hlim | exact HN |].
  rewrite H2. cbn [fst snd self moved num_step].
  split; [reflexivity |]. split; [reflexivity |].
  subst w1. cbn [self].
  rewrite steps_taken_back, (heading_opp S HS). cbn [moved num_step]. lia.
Qed.

Lemma move_there_and_back_witness :
  let r1 := move (PyInt 25) (PyInt 100) world1 in
  let r2 := move (PyInt 25) (PyInt (- 100)) (snd r1) in
  fst r1 = Normal PyNone
  /\ fst r2 = Normal PyNone
  /\ num_step (self (snd r2)) = num_step (self world1).
Proof.
  apply (move_there_and_back 25 100 world1);
    [split; reflexivity | split; reflexivity | lia | repeat split | lia].
Defined.

(** * Further properties *)

(** ** The hardware log of a move *)

Lemma table_index x :
  Py.index half_table (((x mod 8) + 8) mod 8) = inr (table_row x).
Proof.
  unfold table_row. pose proof (Z.mod_pos_bound x 8 ltac:(lia)) as Hm.
  assert (x mod 8 = 0 \/ x mod 8 = 1 \/ x mod 8 = 2 \/ x mod 8 = 3
          \/ x mod 8 = 4 \/ x mod 8 = 5 \/ x mod 8 = 6 \/ x mod 8 = 7)
    as Hcases by lia.
  repeat (destruct Hcases as [-> | Hcases]); try rewrite Hcases; reflexivity.
Qed.

Lemma truediv_pos v :
  0 < v ->
  Py.truediv 1 v = inr (1 # Z.to_pos v)%Q
  /\ Qle_bool 0 (1 # Z.to_pos v) = true.
Proof.
  intros Hv. destruct v as [| p | p]; try lia. split; reflexivity.
Qed.

Section Trace.

Variable d : Z.
Hypothesis d_unit : d = 1 \/ d = -1.

Lemma next_index n : (n + d) * d = n * d + 1.
Proof. destruct d_unit; subst d; lia. Qed.

Lemma run_one_step_row w :
  steppable d w ->
  run_one_step w
  = (Normal tt,
     mkWorld (self w)
       (writes_of (inp (self w)) (table_row (num_step (self w) * d)) ++ hw w)).
Proof.
  intros [Hw Hdir].
  destruct (run_one_step_ok w d Hw Hdir d_unit) as [row [_ [H2 Hrun]]].
  destruct Hw as [_ Hhalf]. rewrite Hhalf, table_index in H2.
  injection H2 as <-. exact Hrun.
Qed.

Lemma ramp_step_log acc_or_dec w :
  steppable d w -> 0 < actual_speed (self w) ->
  ramp_step acc_or_dec w
  = (Normal tt,
     mkWorld (moved (self w) (num_step (self w) + d) (Some d)
                (actual_speed (self w) + acceleration_factor (self w) * acc_or_dec))
       (step_log (inp (self w)) (num_step (self w) * d) (actual_speed (self w))
        ++ hw w)).
Proof.
  intros Hst Hv. pose proof Hst as [Hw Hdir].
  destruct (truediv_pos _ Hv) as [Ht Hpos].
  unfold ramp_step, bind at 1 2 3, get_self. rewrite Ht. cbn [lift ret].
  rewrite (run_one_step_row w Hst).
  unfold bind, modify_self, get_direction, bind, get_self, sleep.
  cbn [self hw set_actual_speed set_num_step direction]. rewrite Hdir.
  cbn [ret self hw]. rewrite Hpos. unfold emit, moved.
  rewrite !Z.mul_1_l. unfold set_num_step, set_actual_speed. simpl.
  rewrite Hdir. reflexivity.
Qed.

Lemma cruise_step_log v w :
  steppable d w -> 0 < v ->
  cruise_step (1 # Z.to_pos v) w
  = (Normal tt,
     mkWorld (moved (self w) (num_step (self w) + d) (Some d) (actual_speed (self w)))
       (step_log (inp (self w)) (num_step (self w) * d) v ++ hw w)).
Proof.
  intros Hst Hv. pose proof Hst as [Hw Hdir].
  destruct (truediv_pos _ Hv) as [_ Hpos].
  unfold cruise_step, bind at 1. rewrite (run_one_step_row w Hst).
  unfold bind, modify_self, get_direction, bind, get_self, sleep.
  cbn [self hw]. rewrite Hdir. cbn [ret self hw]. rewrite Hpos.
  unfold emit, moved. rewrite !Z.mul_1_l. unfold set_num_step. simpl.
  rewrite Hdir. reflexivity.
Qed.

Lemma ramp_loop_log n : forall steps acc_or_dec count w,
  steppable d w ->
  Z.of_nat n = Z.max 0 (Qfloor steps + 1 - count) ->
  (forall i, 0 <= i < Z.of_nat n ->
             0 < actual_speed (self w)
                 + i * (acceleration_factor (self w) * acc_or_dec)) ->
  ramp_loop steps acc_or_dec count w
  = (Normal tt,
     mkWorld (moved (self w) (num_step (self w) + Z.of_nat n * d) (Some d)
                (actual_speed (self w)
                 + Z.of_nat n * (acceleration_factor (self w) * acc_or_dec)))
       (run_log (inp (self w)) (num_step (self w) * d)
          (ramp_chron n (actual_speed (self w))
             (acceleration_factor (self w) * acc_or_dec))
          (hw w))).
Proof.
  induction n as [| n IH]; intros steps acc_or_dec count w Hst Hn Hpos.
  - rewrite ramp_loop_eq.
    destruct (count_le count steps) eqn:Hc.
    + apply count_le_floor in Hc. lia.
    + destruct Hst as [_ Hdir]. rewrite <- Hdir.
      change (Z.of_nat 0) with 0. rewrite !Z.mul_0_l, !Z.add_0_r.
      rewrite moved_id. cbn [ramp_chron run_log]. rewrite world_eta. reflexivity.
  - rewrite ramp_loop_eq.
    destruct (count_le count steps) eqn:Hc.
    2:{ assert (~ count <= Qfloor steps) as Hno.
        { intros Hle. apply count_le_floor in Hle. congruence. }
        lia. }
    rewrite (ramp_step_log acc_or_dec w Hst) by (specialize (Hpos 0); lia).
    match goal with |- ramp_loop _ _ _ ?x = _ => set (w1 := x) end.
    rewrite (IH steps acc_or_dec (count + 1) w1).
    + subst w1. cbn [self hw moved num_step actual_speed
        acceleration_factor inp half actspeed MIN_SPEED MAX_SPEED debug
        debug_filename absolute_time ramp_chron run_log].
      rewrite next_index. unfold moved. do 3 f_equal; lia.
    + apply steppable_moved. exact Hst.
    + lia.
    + intros i Hi. subst w1. cbn [self moved actual_speed acceleration_factor].
      specialize (Hpos (i + 1)). lia.
Qed.

Lemma cruise_loop_log v n : forall w,
  steppable d w -> 0 < v ->
  for_range n (cruise_step (1 # Z.to_pos v)) w
  = (Normal tt,
     mkWorld (moved (self w) (num_step (self w) + Z.of_nat n * d) (Some d)
                (actual_speed (self w)))
       (run_log (inp (self w)) (num_step (self w) * d) (repeat v n) (hw w))).
Proof.
  induction n as [| n IH]; intros w Hst Hv.
  - destruct Hst as [_ Hdir]. rewrite <- Hdir.
    change (Z.of_nat 0) with 0. rewrite Z.mul_0_l, Z.add_0_r, moved_id.
    cbn [repeat run_log for_range]. unfold ret. rewrite world_eta. reflexivity.
  - cbn [for_range]. unfold bind at 1.
    rewrite (cruise_step_log v w Hst Hv).
    match goal with |- for_range _ _ ?x = _ => set (w1 := x) end.
    rewrite (IH w1).
    + subst w1. cbn [self hw moved num_step actual_speed
        acceleration_factor inp half actspeed MIN_SPEED MAX_SPEED debug
        debug_filename absolute_time repeat run_log].
      rewrite next_index. unfold moved. do 3 f_equal; lia.
    + apply steppable_moved. exact Hst.
    + exact Hv.
Qed.

End Trace.

Lemma run_log_app pins vs1 : forall j vs2 log,
  run_log pins j (vs1 ++ vs2) log
  = run_log pins (j + Z.of_nat (List.length vs1)) vs2 (run_log pins j vs1 log).
Proof.
  induction vs1 as [| v vs1 IH]; intros j vs2 log.
  - cbn [app run_log List.length]. rewrite Z.add_0_r. reflexivity.
  - cbn [app run_log List.length]. rewrite IH. f_equal. lia.
Qed.

Lemma ramp_chron_length n : forall v delta, List.length (ramp_chron n v delta) = n.
Proof. induction n; intros; cbn [ramp_chron List.length]; [| rewrite IHn]; reflexivity. Qed.

Section Phases.

Variable d : Z.
Hypothesis d_unit : d = 1 \/ d = -1.

Lemma accelerate_log steps w :
  steppable d w -> 0 < acceleration_factor (self w) ->
  let n := Z.to_nat (Qfloor steps) in
  _linear_acceleration steps true w
  = (Normal tt,
     mkWorld (moved (self w) (num_step (self w) + Z.of_nat n * d) (Some d)
                (acceleration_factor (self w) * (Z.of_nat n + 1)))
       (run_log (inp (self w)) (num_step (self w) * d)
          (ramp_chron n (acceleration_factor (self w)) (acceleration_factor (self w)))
          (hw w))).
Proof.
  intros Hst Ha n.
  unfold _linear_acceleration. cbn [negb]. unfold bind at 1, modify_self at 1.
  match goal with |- context [bind _ _ ?x] => set (w1 := x) end.
  unfold bind.
  rewrite (ramp_loop_log d d_unit n steps 1 1 w1).
  - unfold ret. subst w1.
    cbn [self hw set_actual_speed moved num_step actual_speed
      acceleration_factor inp half actspeed MIN_SPEED MAX_SPEED debug
      debug_filename absolute_time].
    rewrite !Z.mul_1_l, !Z.mul_1_r. unfold moved. do 3 f_equal; lia.
  - destruct Hst as [Hw Hdir]. split; assumption.
  - lia.
  - intros i Hi. subst w1. cbn [self set_actual_speed actual_speed acceleration_factor].
    nia.
Qed.

Lemma decelerate_log steps w :
  steppable d w -> 0 < acceleration_factor (self w) ->
  let n := Z.to_nat (Qfloor steps) in
  (Z.of_nat n - 1) * acceleration_factor (self w) < actual_speed (self w) ->
  _linear_acceleration steps false w
  = (Normal tt,
     mkWorld (moved (self w) (num_step (self w) + Z.of_nat n * d) (Some d) 0)
       (run_log (inp (self w)) (num_step (self w) * d)
          (ramp_chron n (actual_speed (self w)) (- acceleration_factor (self w)))
          (hw w))).
Proof.
  intros Hst Ha n Hv.
  unfold _linear_acceleration. cbn [negb]. unfold bind at 1, ret at 1.
  unfold bind.
  rewrite (ramp_loop_log d d_unit n steps (-1) 1 w).
  - unfold modify_self.
    cbn [self hw set_actual_speed moved num_step actual_speed
      acceleration_factor inp half actspeed MIN_SPEED MAX_SPEED debug
      debug_filename absolute_time direction].
    replace (acceleration_factor (self w) * -1) with (- acceleration_factor (self w))
      by lia.
    reflexivity.
  - exact Hst.
  - lia.
  - intros i Hi. nia.
Qed.

Lemma cruise_log steps speed w :
  steppable d w -> 0 < speed ->
  let n := Z.to_nat (Py.trunc steps) in
  _move_with_constant_speed steps speed w
  = (Normal tt,
     mkWorld (moved (self w) (num_step (self w) + Z.of_nat n * d) (Some d) speed)
       (run_log (inp (self w)) (num_step (self w) * d) (repeat speed n) (hw w))).
Proof.
  intros Hst Hv n.
  unfold _move_with_constant_speed.
  unfold bind at 1, modify_self at 1, bind at 1, get_self at 1.
  cbn [self set_actual_speed actual_speed].
  destruct (truediv_pos _ Hv) as [Ht _].
  unfold bind at 1. rewrite Ht. cbn [lift ret]. fold n.
  match goal with |- for_range _ _ ?x = _ => set (w1 := x) end.
  rewrite (cruise_loop_log d d_unit speed n w1).
  - subst w1.
    cbn [self hw set_actual_speed moved num_step actual_speed
      acceleration_factor inp half actspeed MIN_SPEED MAX_SPEED debug
      debug_filename absolute_time].
    reflexivity.
  - destruct Hst as [Hw Hdir]. split; assumption.
  - exact Hv.
Qed.

End Phases.

Lemma shift_index d n k : d = 1 \/ d = -1 -> (n + k * d) * d = n * d + k.
Proof. intros [-> | ->]; lia. Qed.

Lemma move_ramp_up_log N speed w :
  wired (self w) -> limits_ok (self w) -> 0 <= N ->
  let s := self w in
  let d := heading speed in
  move_ramp_up N speed w
  = (Normal (ramp_arg s N speed, cruise_arg s N speed, reached_speed s N speed),
     mkWorld (moved s (num_step s + ramp_steps s N speed * d) (Some d)
                (ramp_end_speed s N speed))
       (run_log (inp s) (num_step s * d)
          (ramp_chron (Z.to_nat (ramp_steps s N speed))
             (acceleration_factor s) (acceleration_factor s))
          (hw w))).
Proof.
  intros Hw Hlim HN s d.
  destruct (plan_facts s speed Hlim) as [Ha [HS [Hq _]]].
  pose proof (ramp_steps_nonneg s N speed Hlim HN) as Hk.
  unfold move_ramp_up.
  set (w1 := mkWorld (set_direction (Some d) s) (hw w)).
  match goal with |- context [bind _ (fun _ => bind _ ?k) w] => set (rest := k) end.
  assert (forall k : Z -> M (Q * Q * Z),
    bind (if speed >=? 0 then modify_self (set_direction (Some 1)) else ret tt)
      (fun _ => bind (if speed <? 0
                      then bind (modify_self (set_direction (Some (-1))))
                             (fun _ => ret (Z.abs speed))
                      else ret speed) k) w
    = k (Z.abs speed) w1) as Hdir.
  { intros k. subst w1 d. unfold heading. rewrite Z.geb_leb.
    destruct (Z.leb_spec 0 speed) as [Hs | Hs].
    - destruct (Z.ltb_spec speed 0); [lia |].
      rewrite Z.abs_eq by lia. reflexivity.
    - destruct (Z.ltb_spec speed 0); [| lia].
      reflexivity. }
  rewrite Hdir. subst rest. cbv beta.
  unfold bind at 1, get_self at 1. cbn [self].
  change (clamp (self w1) (Z.abs speed)) with (target_speed s speed).
  change (acceleration_factor (self w1)) with (acceleration_factor s).
  destruct (trunc_truediv (target_speed s speed) (acceleration_factor s))
    as [q [Hq1 Hq2]]; [lia | lia |].
  unfold bind at 1. rewrite Hq1. cbn [lift ret]. rewrite Hq2, half_le.
  change (if negb (2 * (target_speed s speed / acceleration_factor s) <=? N)
          then (inject_Z N / 2)%Q
          else inject_Z (target_speed s speed / acceleration_factor s))
    with (ramp_arg s N speed).
  change (inject_Z N - 2 * ramp_arg s N speed)%Q with (cruise_arg s N speed).
  unfold bind at 1.
  rewrite (accelerate_log d (heading_unit speed) (ramp_arg s N speed) w1);
    [| split; [exact Hw | reflexivity] | exact Ha].
  rewrite (ramp_arg_floor s N speed).
  unfold bind, get_self, ret.
  cbn [self moved actual_speed]. rewrite min_as_test.
  subst w1. cbn [self hw set_direction moved num_step actual_speed
    acceleration_factor inp half actspeed MIN_SPEED MAX_SPEED debug
    debug_filename absolute_time].
  rewrite Z2Nat.id by exact Hk. reflexivity.
Qed.

(** The whole result of a call with integer arguments, in closed form. *)
Lemma move_log N speed w :
  wired (self w) -> limits_ok (self w) -> 0 <= N ->
  let s := self w in
  let d := heading speed in
  move (PyInt N) (PyInt speed) w
  = (Normal PyNone,
     mkWorld (moved s (num_step s + steps_taken s N speed * d) (Some d) 0)
       (run_log (inp s) (num_step s * d) (chron_profile s N speed) (hw w))).
Proof.
  intros Hw Hlim HN s d.
  destruct (plan_facts s speed Hlim) as [Ha _].
  destruct (reached_speed_bounds s N speed Hlim HN) as [[Hr0 Hr1] [Hr2 _]].
  pose proof (ramp_steps_nonneg s N speed Hlim HN) as Hk.
  pose proof (cruise_steps_nonneg s N speed) as Hc.
  rewrite move_integers by exact HN.
  unfold move_valid, bind at 1.
  rewrite (move_ramp_up_log N speed w Hw Hlim HN). fold s d. cbv iota beta.
  match goal with |- bind _ _ ?x = _ => set (w1 := x) end.
  assert (steppable d w1) as Hst1 by (split; [exact Hw | reflexivity]).
  unfold bind at 1.
  rewrite (cruise_log d (heading_unit speed) (cruise_arg s N speed)
             (reached_speed s N speed) w1 Hst1 Hr0).
  rewrite (cruise_arg_trunc s N speed).
  match goal with |- bind _ _ ?x = _ => set (w2 := x) end.
  assert (steppable d w2) as Hst2 by (split; [exact Hw | reflexivity]).
  unfold bind at 1.
  rewrite (decelerate_log d (heading_unit speed) (ramp_arg s N speed) w2 Hst2 Ha).
  2:{ rewrite (ramp_arg_floor s N speed). rewrite Z2Nat.id by exact Hk. exact Hr2. }
  rewrite (ramp_arg_floor s N speed). unfold ret. subst w2 w1.
  cbn [self hw moved num_step actual_speed
    acceleration_factor inp half actspeed MIN_SPEED MAX_SPEED debug
    debug_filename absolute_time].
  unfold chron_profile. rewrite !run_log_app, ramp_chron_length, repeat_length.
  rewrite !Z2Nat.id by assumption.
  rewrite !(shift_index d) by exact (heading_unit speed).
  unfold moved, steps_taken. do 3 f_equal; lia.
Qed.

(** X1: a call [move(N, V)] with integers, [N >= 0], on an object wired
    as [__init__] leaves it, with a positive acceleration factor and
    minimal speed, step count and limits below 2^53, returns [None] and its whole effect is known in closed
    form: the counter moves by the steps taken in the direction of the sign
    of [V], the speed ends at 0, and the hardware log gains, step after
    step, the four pin writes of the next row of the half-step table and
    the sleep of the step's delay. *)
Theorem move_hardware_log (N V : Z) (w : world) :
  wired (self w) -> limits_ok (self w) -> 0 <= N -> float_exact (self w) N ->
  let s := self w in
  let d := heading V in
  move (PyInt N) (PyInt V) w
  = (Normal PyNone,
     mkWorld (moved s (num_step s + steps_taken s N V * d) (Some d) 0)
       (run_log (inp s) (num_step s * d) (chron_profile s N V) (hw w))).
Proof. intros Hw Hlim HN _. exact (move_log N V w Hw Hlim HN). Qed.

Lemma move_hardware_log_witness :
  move (PyInt 3) (PyInt (-100)) world1
  = (Normal PyNone,
     mkWorld (moved motor1 (-2) (Some (-1)) 0)
       [ Sleep (1 # 2); DigitalWrite (PyInt 3) 0; DigitalWrite (PyInt 2) 0;
         DigitalWrite (PyInt 0) 0; DigitalWrite (PyInt 7) 1;
         Sleep 1; DigitalWrite (PyInt 3) 1; DigitalWrite (PyInt 2) 0;
         DigitalWrite (PyInt 0) 0; DigitalWrite (PyInt 7) 1 ]).
Proof.
  exact (move_hardware_log 3 (-100) world1
           (conj eq_refl eq_refl) (conj eq_refl eq_refl) ltac:(lia)
           (conj eq_refl (conj eq_refl (conj eq_refl eq_refl)))).
Defined.

(** ** Counting the hardware calls *)

Lemma writes_app l1 l2 : writes (l1 ++ l2) = writes l1 ++ writes l2.
Proof. apply filter_app. Qed.

Lemma sleeps_app l1 l2 : sleeps (l1 ++ l2) = sleeps l1 ++ sleeps l2.
Proof. apply filter_app. Qed.

Lemma writes_of_counts pins row :
  List.length pins = 4%nat -> List.length row = 4%nat ->
  List.length (writes (writes_of pins row)) = 4%nat
  /\ sleeps (writes_of pins row) = [].
Proof.
  intros Hp Hr.
  destruct pins as [| p0 [| p1 [| p2 [| p3 [| ? ?]]]]]; try discriminate.
  destruct row as [| r0 [| r1 [| r2 [| r3 [| ? ?]]]]]; try discriminate.
  split; reflexivity.
Qed.

Lemma table_row_length j : List.length (table_row j) = 4%nat.
Proof.
  unfold table_row. pose proof (Z.mod_pos_bound j 8 ltac:(lia)) as Hm.
  assert (j mod 8 = 0 \/ j mod 8 = 1 \/ j mod 8 = 2 \/ j mod 8 = 3
          \/ j mod 8 = 4 \/ j mod 8 = 5 \/ j mod 8 = 6 \/ j mod 8 = 7)
    as Hcases by lia.
  repeat (destruct Hcases as [-> | Hcases]); try rewrite Hcases; reflexivity.
Qed.

Lemma run_log_counts pins vs : forall j log,
  List.length pins = 4%nat ->
  List.length (writes (run_log pins j vs log))
  = (4 * List.length vs + List.length (writes log))%nat
  /\ List.length (sleeps (run_log pins j vs log))
     = (List.length vs + List.length (sleeps log))%nat.
Proof.
  induction vs as [| v vs IH]; intros j log Hp; [split; reflexivity |].
  cbn [run_log]. destruct (IH (j + 1) (step_log pins j v ++ log) Hp) as [Hw Hs].
  rewrite Hw, Hs. unfold step_log.
  destruct (writes_of_counts pins (table_row j) Hp (table_row_length j)) as [H4 H0].
  rewrite writes_app, sleeps_app, !length_app.
  cbn [writes sleeps filter]. fold (writes (writes_of pins (table_row j))).
  fold (sleeps (writes_of pins (table_row j))). rewrite H4, H0.
  cbn [List.length]. split; lia.
Qed.

Lemma chron_profile_length s N V :
  limits_ok s -> 0 <= N ->
  Z.of_nat (List.length (chron_profile s N V)) = steps_taken s N V.
Proof.
  intros Hlim HN.
  pose proof (ramp_steps_nonneg s N V Hlim HN).
  pose proof (cruise_steps_nonneg s N V).
  unfold chron_profile, steps_taken.
  rewrite !length_app, !ramp_chron_length, repeat_length. lia.
Qed.

(** X2: with step count and limits below 2^53, a completed move takes
    [N] steps, except [N - 1] when [N] is odd
    and the move is too short for the ramp to reach the clamped speed
    ([int(speed / acceleration_factor) > N / 2]); every step makes exactly
    four [digitalWrite] calls and one [sleep], and the counter moves by one
    per step in the direction of the sign of the speed. *)
Theorem move_steps_and_hardware_calls (N V : Z) (w : world) :
  wired (self w) -> limits_ok (self w) -> 0 <= N -> float_exact (self w) N ->
  let s := self w in
  let w' := snd (move (PyInt N) (PyInt V) w) in
  let steps := if short_move s N V && Z.odd N then N - 1 else N in
  num_step (self w') = num_step s + heading V * steps
  /\ Z.of_nat (List.length (sleeps (hw w')))
     = steps + Z.of_nat (List.length (sleeps (hw w)))
  /\ Z.of_nat (List.length (writes (hw w')))
     = 4 * steps + Z.of_nat (List.length (writes (hw w))).
Proof.
  intros Hw Hlim HN _ s w' steps.
  assert (steps_taken s N V = steps) as Hsteps.
  { unfold steps_taken, steps. rewrite (total_steps s N V).
    destruct (short_move s N V); cbn [andb]; [| reflexivity].
    pose proof (Zmod_odd N) as Hodd.
    pose proof (Z.div_mod N 2 ltac:(lia)).
    destruct (Z.odd N); lia. }
  subst w'. rewrite (move_log N V w Hw Hlim HN). fold s.
  cbn [snd self hw moved num_step].
  destruct (run_log_counts (inp s) (chron_profile s N V)
              (num_step s * heading V) (hw w) (proj1 Hw)) as [Hwr Hsl].
  rewrite Hwr, Hsl, !Nat2Z.inj_add, Nat2Z.inj_mul.
  rewrite (chron_profile_length s N V Hlim HN), Hsteps.
  repeat split; lia.
Qed.

Lemma move_steps_and_hardware_calls_witness :
  let w' := snd (move (PyInt 7) (PyInt 100) world1) in
  num_step (self w') = 6
  /\ Z.of_nat (List.length (sleeps (hw w'))) = 6
  /\ Z.of_nat (List.length (writes (hw w'))) = 24.
Proof.
  exact (move_steps_and_hardware_calls 7 100 world1
           (conj eq_refl eq_refl) (conj eq_refl eq_refl) ltac:(lia)
           (conj eq_refl (conj eq_refl (conj eq_refl eq_refl)))).
Defined.

(** ** Both directions step forward through the table *)

Lemma table_row_mod j j' : j mod 8 = j' mod 8 -> table_row j = table_row j'.
Proof. unfold table_row. intros ->. reflexivity. Qed.

Lemma run_log_mod pins vs : forall j j' log,
  j mod 8 = j' mod 8 -> run_log pins j vs log = run_log pins j' vs log.
Proof.
  induction vs as [| v vs IH]; intros j j' log Hj; [reflexivity |].
  cbn [run_log]. unfold step_log. rewrite (table_row_mod j j' Hj).
  apply IH. rewrite (Z.add_mod j), (Z.add_mod j'), Hj by lia. reflexivity.
Qed.

Lemma chron_profile_opp s N V : chron_profile s N (- V) = chron_profile s N V.
Proof.
  unfold chron_profile, reached_speed, ramp_end_speed.
  destruct (plan_opp s N V) as [-> ->].
  unfold target_speed. rewrite Z.abs_opp. reflexivity.
Qed.

(** X3: the row written by a step is [(num_step * direction) mod 8] and
    the counter moves by [direction], so the row index grows by one at
    every step in both directions.  From a counter that is a multiple of
    4 (a new object has 0), [move(N, V)] and [move(N, -V)] therefore make
    exactly the same hardware calls, writes and sleeps, in the same
    order; only the sign of the counter and the direction differ. *)
Theorem move_opposite_speed_same_hardware_log (N V : Z) (w : world) :
  wired (self w) -> limits_ok (self w) -> 0 <= N ->
  num_step (self w) mod 4 = 0 ->
  hw (snd (move (PyInt N) (PyInt (- V)) w)) = hw (snd (move (PyInt N) (PyInt V) w)).
Proof.
  intros Hw Hlim HN H4.
  rewrite (move_log N V w Hw Hlim HN), (move_log N (- V) w Hw Hlim HN).
  cbn [snd hw]. rewrite chron_profile_opp.
  apply run_log_mod.
  destruct (Z.eq_dec V 0) as [-> | HV]; [reflexivity |].
  rewrite (heading_opp V HV).
  pose proof (Z.div_mod (num_step (self w)) 4 ltac:(lia)) as Hq.
  rewrite H4, Z.add_0_r in Hq.
  destruct (heading_unit V) as [-> | ->].
  - replace (num_step (self w) * - (1)) with
      (num_step (self w) * 1 + (- (num_step (self w) / 4)) * 8) by lia.
    apply Z_mod_plus_full.
  - replace (num_step (self w) * - -1) with
      (num_step (self w) * -1 + (num_step (self w) / 4) * 8) by lia.
    apply Z_mod_plus_full.
Qed.

Lemma move_opposite_speed_same_hardware_log_witness :
  hw (snd (move (PyInt 12) (PyInt (- 40)) world1))
  = hw (snd (move (PyInt 12) (PyInt 40) world1)).
Proof.
  exact (move_opposite_speed_same_hardware_log 12 40 world1
           (conj eq_refl eq_refl) (conj eq_refl eq_refl) ltac:(lia) eq_refl).
Defined.

(** ** Speed limits *)

Lemma clamp_max s x : MIN_SPEED s <= MAX_SPEED s -> clamp s x <= MAX_SPEED s.
Proof.
  intros H. unfold clamp. rewrite Z.gtb_ltb.
  destruct (Z.ltb_spec (MAX_SPEED s) x);
    match goal with |- (if ?y <? ?m then _ else _) <= _ =>
      destruct (Z.ltb_spec y m); lia end.
Qed.

(** X4: when [MIN_SPEED <= MAX_SPEED], as in [__init__], and the step
    count and the limits are below 2^53, no step of a
    move is timed faster than [MAX_SPEED], whatever speed is asked for:
    every delay slept is positive and at least [1 / MAX_SPEED]. *)
Theorem move_never_exceeds_MAX_SPEED (N V : Z) (w : world) :
  wired (self w) -> limits_ok (self w) -> 0 <= N -> float_exact (self w) N ->
  MIN_SPEED (self w) <= MAX_SPEED (self w) ->
  exists log,
    hw (snd (move (PyInt N) (PyInt V) w)) = log ++ hw w
    /\ Forall (fun e => match e with
                        | Sleep t => (0 < t /\ / inject_Z (MAX_SPEED (self w)) <= t)%Q
                        | _ => True
                        end) log
    /\ (peak_speed log <= inject_Z (MAX_SPEED (self w)))%Q.
Proof.
  intros Hw Hlim HN _ Hmm.
  destruct (move_ok N V w Hw Hlim HN) as [log [H Hsp]].
  pose proof (profile_bounds (self w) N V Hlim HN) as Hb.
  pose proof (clamp_max (self w) (Z.abs V) Hmm) as Hmax.
  fold (target_speed (self w) V) in Hmax.
  exists log. rewrite H. cbn [snd hw]. split; [reflexivity |]. split.
  - assert (Forall (fun q => (0 < q <= inject_Z (MAX_SPEED (self w)))%Q)
              (step_speeds log)) as Hq.
    { rewrite Hsp. apply Forall_map. eapply Forall_impl; [| exact Hb].
      intros x [Hx0 Hx1]. split.
      - change 0%Q with (inject_Z 0). rewrite <- Zlt_Qlt. exact Hx0.
      - rewrite <- Zle_Qle. lia. }
    clear H Hsp Hb. induction log as [| e log IH]; [constructor |].
    destruct e as [| | | t]; cbn [step_speeds flat_map app] in Hq;
      try (constructor; [exact I | apply IH; exact Hq]).
    inversion Hq as [| q l [Hq0 Hq1] Hrest]; subst.
    constructor; [| apply IH; exact Hrest].
    assert (0 < t)%Q as Ht.
    { apply Qinv_lt_0_compat in Hq0. rewrite Qinv_involutive in Hq0. exact Hq0. }
    split; [exact Ht |].
    assert (0 < inject_Z (MAX_SPEED (self w)))%Q as HM
      by (eapply Qlt_le_trans; [exact Hq0 | exact Hq1]).
    apply Qnot_lt_le. intros Hlt.
    apply (Qinv_lt_contravar t (/ inject_Z (MAX_SPEED (self w)))) in Hlt;
      [| exact Ht | apply Qinv_lt_0_compat; exact HM].
    rewrite Qinv_involutive in Hlt.
    apply Qlt_not_le in Hlt. contradiction.
  - apply (peak_speed_le log (profile (self w) N V)); [exact Hsp | |].
    + pose proof (target_speed_pos (self w) V Hlim). lia.
    + eapply Forall_impl; [| exact Hb]. intros x Hx. cbv beta in Hx. lia.
Qed.

Lemma move_never_exceeds_MAX_SPEED_witness :
  exists log,
    hw (snd (move (PyInt 20) (PyInt 100000) world1)) = log ++ hw world1
    /\ Forall (fun e => match e with
                        | Sleep t => (0 < t /\ / inject_Z 500 <= t)%Q
                        | _ => True
                        end) log
    /\ (peak_speed log <= inject_Z 500)%Q.
Proof.
  exact (move_never_exceeds_MAX_SPEED 20 100000 world1
           (conj eq_refl eq_refl) (conj eq_refl eq_refl) ltac:(lia)
           (conj eq_refl (conj eq_refl (conj eq_refl eq_refl)))
           ltac:(simpl; lia)).
Defined.

(** ** The ramp is smooth *)

Lemma smooth_app a l1 : forall l2,
  smooth a l1 -> smooth a l2 ->
  (l1 <> [] -> forall y, hd_error l2 = Some y -> Z.abs (y - last l1 0) <= a) ->
  smooth a (l1 ++ l2).
Proof.
  induction l1 as [| x l1 IH]; intros l2 H1 H2 Hj; [exact H2 |].
  destruct l1 as [| x' l1].
  - cbn [app]. destruct l2 as [| y l2]; [exact I |].
    split; [| exact H2]. apply (Hj ltac:(discriminate) y eq_refl).
  - destruct H1 as [Hx H1]. cbn [app smooth]. split; [exact Hx |].
    apply (IH l2 H1 H2). intros _ y Hy. apply (Hj ltac:(discriminate) y Hy).
Qed.

Lemma smooth_ramp a n : forall v delta,
  Z.abs delta <= a -> smooth a (ramp_chron n v delta).
Proof.
  induction n as [| n IH]; intros v delta Hd; [exact I |].
  cbn [ramp_chron]. specialize (IH (v + delta) delta Hd).
  destruct n as [| n]; [exact I |].
  cbn [ramp_chron smooth] in *. split; [| exact IH].
  replace (v + delta - v) with delta by lia. exact Hd.
Qed.

Lemma smooth_repeat a v n : 0 <= a -> smooth a (repeat v n).
Proof.
  intros Ha. induction n as [| n IH]; [exact I |].
  cbn [repeat]. destruct n as [| n]; [exact I |].
  cbn [repeat smooth] in *. split; [| exact IH].
  rewrite Z.sub_diag. exact Ha.
Qed.

Lemma ramp_chron_last n : forall v delta,
  last (ramp_chron (S n) v delta) 0 = v + Z.of_nat n * delta.
Proof.
  induction n as [| n IH]; intros v delta.
  - cbn. lia.
  - change (ramp_chron (S (S n)) v delta)
      with (v :: ramp_chron (S n) (v + delta) delta).
    change (last (v :: ramp_chron (S n) (v + delta) delta) 0)
      with (last (ramp_chron (S n) (v + delta) delta) 0).
    rewrite IH. lia.
Qed.

Lemma repeat_last v n : last (repeat v (S n)) 0 = v.
Proof.
  induction n as [| n IH]; [reflexivity |].
  change (last (repeat v (S (S n))) 0) with (last (repeat v (S n)) 0). exact IH.
Qed.

Lemma chron_profile_smooth s N V :
  limits_ok s -> 0 <= N ->
  smooth (acceleration_factor s) (chron_profile s N V)
  /\ Forall (fun v => 0 < v) (chron_profile s N V).
Proof.
  intros Hlim HN.
  destruct (plan_facts s V Hlim) as [Ha _].
  destruct (reached_speed_bounds s N V Hlim HN) as [[Hr0 Hr1] [Hr2 Hr3]].
  pose proof (ramp_steps_nonneg s N V Hlim HN) as Hk.
  assert (reached_speed s N V <= acceleration_factor s * (ramp_steps s N V + 1))
    as Hr4 by (unfold reached_speed, ramp_end_speed; lia).
  unfold chron_profile.
  set (k := Z.to_nat (ramp_steps s N V)).
  assert (Z.of_nat k = ramp_steps s N V) as Hkk by (subst k; lia).
  clearbody k.
  split.
  - apply smooth_app; [apply smooth_ramp; lia | apply smooth_app | ].
    + apply smooth_repeat; lia.
    + apply smooth_ramp. lia.
    + intros Hne y Hy.
      destruct (Z.to_nat (cruise_steps s N V)) as [| c];
        [exfalso; apply Hne; reflexivity |].
      rewrite repeat_last.
      destruct k as [| k']; [discriminate Hy |].
      cbn in Hy. injection Hy as <-. lia.
    + intros Hne y Hy.
      destruct k as [| k']; [exfalso; apply Hne; reflexivity |].
      rewrite ramp_chron_last.
      assert (y = reached_speed s N V) as ->.
      { destruct (Z.to_nat (cruise_steps s N V)); cbn in Hy; congruence. }
      nia.
  - rewrite !Forall_app. repeat split; apply Forall_forall; intros x Hin.
    + assert (forall n v, 0 < v ->
                In x (ramp_chron n v (acceleration_factor s)) -> 0 < x) as Hacc.
      { clear -Ha. induction n as [| n IH]; intros v Hv Hin; [destruct Hin |].
        destruct Hin as [<- | Hin]; [exact Hv |].
        apply (IH (v + acceleration_factor s)); [lia | exact Hin]. }
      apply (Hacc k (acceleration_factor s)); [exact Ha | exact Hin].
    + apply repeat_spec in Hin. subst x. exact Hr0.
    + assert (forall n v, (Z.of_nat n - 1) * acceleration_factor s < v ->
                In x (ramp_chron n v (- acceleration_factor s)) -> 0 < x) as Hdec.
      { clear -Ha. induction n as [| n IH]; intros v Hv Hin; [destruct Hin |].
        destruct Hin as [<- | Hin]; [nia |].
        apply (IH (v + - acceleration_factor s)); [nia | exact Hin]. }
      apply (Hdec k (reached_speed s N V)); [rewrite Hkk; exact Hr2 | exact Hin].
Qed.

(** X5: with step count and limits below 2^53, the speeds at which the
    steps of a move are timed never jump: two
    steps in a row differ by at most [acceleration_factor], through the
    acceleration, the cruise, the deceleration and the two junctions, and
    every speed is positive. *)
Theorem move_speed_changes_by_at_most_acceleration_factor (N V : Z) (w : world) :
  wired (self w) -> limits_ok (self w) -> 0 <= N -> float_exact (self w) N ->
  let s := self w in
  exists speeds,
    hw (snd (move (PyInt N) (PyInt V) w))
    = run_log (inp s) (num_step s * heading V) speeds (hw w)
    /\ Z.of_nat (List.length speeds) = steps_taken s N V
    /\ smooth (acceleration_factor s) speeds
    /\ Forall (fun v => 0 < v) speeds.
Proof.
  intros Hw Hlim HN _ s. exists (chron_profile s N V).
  rewrite (move_log N V w Hw Hlim HN). cbn [snd hw]. fold s.
  split; [reflexivity |]. split; [apply chron_profile_length; assumption |].
  apply chron_profile_smooth; assumption.
Qed.

Lemma move_speed_changes_by_at_most_acceleration_factor_witness :
  exists speeds,
    hw (snd (move (PyInt 25) (PyInt 3) world1))
    = run_log [7; 0; 2; 3] 0 speeds []
    /\ Z.of_nat (List.length speeds) = steps_taken motor1 25 3
    /\ smooth 1 speeds
    /\ Forall (fun v => 0 < v) speeds.
Proof.
  exact (move_speed_changes_by_at_most_acceleration_factor 25 3 world1
           (conj eq_refl eq_refl) (conj eq_refl eq_refl) ltac:(lia)
           (conj eq_refl (conj eq_refl (conj eq_refl eq_refl)))).
Defined.

(** ** Construction, continued *)

Lemma try_int_ok what i p : Py.int i = inr p -> try_int what i = inr tt.
Proof. unfold try_int. intros ->. reflexivity. Qed.

Lemma check_pins_convert i1 i2 i3 i4 p1 p2 p3 p4 :
  Py.int i1 = inr p1 -> Py.int i2 = inr p2 ->
  Py.int i3 = inr p3 -> Py.int i4 = inr p4 ->
  check_pins i1 i2 i3 i4 = check_pins (PyInt p1) (PyInt p2) (PyInt p3) (PyInt p4).
Proof.
  intros H1 H2 H3 H4. unfold check_pins.
  rewrite (try_int_ok _ _ _ H1), (try_int_ok _ _ _ H2),
    (try_int_ok _ _ _ H3), (try_int_ok _ _ _ H4), H1, H2, H3, H4.
  reflexivity.
Qed.

Lemma check_pins_needs_integers i1 i2 i3 i4 l :
  check_pins i1 i2 i3 i4 = inr l ->
  exists p1 p2 p3 p4,
    Py.int i1 = inr p1 /\ Py.int i2 = inr p2
    /\ Py.int i3 = inr p3 /\ Py.int i4 = inr p4.
Proof.
  unfold check_pins, try_int, sum_bind. intros H.
  destruct (Py.int i1) as [[] | p1]; try discriminate H.
  destruct (Py.int i2) as [[] | p2]; try discriminate H.
  destruct (Py.int i3) as [[] | p3]; try discriminate H.
  destruct (Py.int i4) as [[] | p4]; try discriminate H.
  exists p1, p2, p3, p4. repeat split.
Qed.

(** X6: for arguments that are integers or [None], when
    [Stepper(i1, i2, i3, i4)] returns an object its pins are four pairwise distinct integers from 0
    to 16 (the values of [int] on the arguments), it holds the half-step
    table, counter 0, no direction, speed 0 and the limits 1, 10 and 500,
    and the hardware has seen [wiringPiSetup], the four [pinMode(i, 1)] and
    the four [digitalWrite(i, 0)] in that order; when it raises, the
    hardware has seen [wiringPiSetup] only. *)
Theorem init_result (i1 i2 i3 i4 : pyval) (log : list event) :
  not_str i1 -> not_str i2 -> not_str i3 -> not_str i4 ->
  match __init__ i1 i2 i3 i4 log with
  | (Normal s, log') =>
      (exists p1 p2 p3 p4,
          Py.int i1 = inr p1 /\ Py.int i2 = inr p2
          /\ Py.int i3 = inr p3 /\ Py.int i4 = inr p4
          /\ inp s = [p1; p2; p3; p4])
      /\ NoDup (inp s) /\ Forall (fun p => 0 <= p <= 16) (inp s)
      /\ half s = half_table
      /\ acceleration_factor s = 1 /\ MIN_SPEED s = 10 /\ MAX_SPEED s = 500
      /\ num_step s = 0 /\ direction s = None /\ actual_speed s = 0
      /\ log' = [ DigitalWrite i4 0; DigitalWrite i3 0; DigitalWrite i2 0;
                  DigitalWrite i1 0; PinMode i4 1; PinMode i3 1; PinMode i2 1;
                  PinMode i1 1; WiringPiSetup ] ++ log
  | (Raised _, log') => log' = WiringPiSetup :: log
  end.
Proof.
  intros _ _ _ _. unfold __init__.
  destruct (check_pins i1 i2 i3 i4) as [e | l] eqn:E; [reflexivity |].
  destruct (check_pins_needs_integers _ _ _ _ _ E) as [p1 [p2 [p3 [p4 [H1 [H2 [H3 H4]]]]]]].
  rewrite (check_pins_convert _ _ _ _ _ _ _ _ H1 H2 H3 H4) in E.
  pose proof (check_pins_integers p1 p2 p3 p4) as Hc. cbv zeta in Hc.
  rewrite E in Hc. destruct Hc as [-> [Hrange Hnd]].
  cbn [inp half acceleration_factor MIN_SPEED MAX_SPEED num_step direction
       actual_speed].
  split; [exists p1, p2, p3, p4; repeat split; assumption |].
  repeat split; assumption.
Qed.

Lemma init_result_witness :
  snd (__init__ PyNone (PyInt 0) (PyInt 2) (PyInt 3) []) = [WiringPiSetup]
  /\ snd (__init__ (PyInt 7) (PyInt 0) (PyInt 2) (PyInt 3) [])
     = [ DigitalWrite (PyInt 3) 0; DigitalWrite (PyInt 2) 0;
         DigitalWrite (PyInt 0) 0; DigitalWrite (PyInt 7) 0;
         PinMode (PyInt 3) 1; PinMode (PyInt 2) 1; PinMode (PyInt 0) 1;
         PinMode (PyInt 7) 1; WiringPiSetup ].
Proof.
  split.
  - exact (init_result PyNone (PyInt 0) (PyInt 2) (PyInt 3) [] I I I I).
  - pose proof (init_result (PyInt 7) (PyInt 0) (PyInt 2) (PyInt 3) [] I I I I)
      as H.
    vm_compute in H. vm_compute. decompose [and] H. assumption.
Defined.

(** X7: with four integers, the constructor returns an object exactly
    when they are pairwise distinct and all from 0 to 16; otherwise it
    raises [ConfigurationError]. *)
Theorem init_accepts_exactly_distinct_pins_in_range (p1 p2 p3 p4 : Z)
  (log : list event) :
  let pins := [p1; p2; p3; p4] in
  let r := fst (__init__ (PyInt p1) (PyInt p2) (PyInt p3) (PyInt p4) log) in
  (NoDup pins /\ Forall (fun p => 0 <= p <= 16) pins ->
   exists s, r = Normal s /\ inp s = pins)
  /\ (~ (NoDup pins /\ Forall (fun p => 0 <= p <= 16) pins) ->
      exists msg, r = Raised (ConfigurationError msg)).
Proof.
  intros pins r. subst r. unfold __init__.
  pose proof (check_pins_integers p1 p2 p3 p4) as Hc. cbv zeta in Hc. fold pins in Hc.
  destruct (check_pins (PyInt p1) (PyInt p2) (PyInt p3) (PyInt p4)) as [e | l];
    cbn [fst].
  - destruct Hc as [[msg ->] Hbad]. split.
    + intros [Hnd Hrange]. exfalso. destruct Hbad as [Hex | Hdup]; [| tauto].
      apply Exists_exists in Hex. destruct Hex as [x [Hin Hx]].
      rewrite Forall_forall in Hrange. exact (Hx (Hrange x Hin)).
    + intros _. exists msg. reflexivity.
  - destruct Hc as [-> [Hrange Hnd]]. split.
    + intros _. eexists. split; reflexivity.
    + intros Hno. exfalso. apply Hno. split; assumption.
Qed.

Lemma init_accepts_exactly_distinct_pins_in_range_witness :
  (exists s, fst (__init__ (PyInt 7) (PyInt 0) (PyInt 2) (PyInt 3) []) = Normal s
             /\ inp s = [7; 0; 2; 3])
  /\ (exists msg,
         fst (__init__ (PyInt 7) (PyInt 0) (PyInt 7) (PyInt 3) [])
         = Raised (ConfigurationError msg)).
Proof.
  split.
  - apply (init_accepts_exactly_distinct_pins_in_range 7 0 2 3 []).
    split.
    + repeat constructor; simpl; intuition lia.
    + repeat constructor; lia.
  - apply (init_accepts_exactly_distinct_pins_in_range 7 0 7 3 []).
    intros [Hnd _]. inversion Hnd as [| x l Hin _]; subst.
    apply Hin. simpl. auto.
Defined.

(** ** The levels on the pins *)

(** X9: on an object with its four pins, [stop] writes level 0 to
    [inp[0]], [inp[2]], [inp[3]] and [inp[1]], in that order, sleeps
    never and changes no attribute; afterwards the last level written to
    each of the four pins is 0. *)
Theorem stop_writes_low_to_every_pin (w : world) :
  List.length (inp (self w)) = 4%nat ->
  exists p0 p1 p2 p3,
    inp (self w) = [p0; p1; p2; p3]
    /\ stop w
       = (Normal tt,
          mkWorld (self w)
            (DigitalWrite (PyInt p1) 0 :: DigitalWrite (PyInt p3) 0
             :: DigitalWrite (PyInt p2) 0 :: DigitalWrite (PyInt p0) 0 :: hw w))
    /\ forall pin, In pin (inp (self w)) ->
                   last_level (hw (snd (stop w))) pin = Some 0.
Proof.
  intros Hlen.
  destruct (inp (self w)) as [| p0 [| p1 [| p2 [| p3 [| ? ?]]]]] eqn:Hinp;
    try discriminate.
  exists p0, p1, p2, p3. split; [reflexivity |].
  assert (stop w
          = (Normal tt,
             mkWorld (self w)
               (DigitalWrite (PyInt p1) 0 :: DigitalWrite (PyInt p3) 0
                :: DigitalWrite (PyInt p2) 0 :: DigitalWrite (PyInt p0) 0 :: hw w)))
    as Hstop.
  { unfold stop, bind at 1, get_self. rewrite Hinp. reflexivity. }
  split; [exact Hstop |].
  intros pin Hin. rewrite Hstop. cbn [snd hw last_level].
  destruct (Z.eqb_spec p1 pin); [reflexivity |].
  destruct (Z.eqb_spec p3 pin); [reflexivity |].
  destruct (Z.eqb_spec p2 pin); [reflexivity |].
  destruct (Z.eqb_spec p0 pin); [reflexivity |].
  simpl in Hin. intuition congruence.
Qed.

Lemma stop_writes_low_to_every_pin_witness :
  exists p0 p1 p2 p3,
    inp (self world1) = [p0; p1; p2; p3]
    /\ stop world1
       = (Normal tt,
          mkWorld (self world1)
            (DigitalWrite (PyInt p1) 0 :: DigitalWrite (PyInt p3) 0
             :: DigitalWrite (PyInt p2) 0 :: DigitalWrite (PyInt p0) 0 :: hw world1))
    /\ forall pin, In pin (inp (self world1)) ->
                   last_level (hw (snd (stop world1))) pin = Some 0.
Proof. exact (stop_writes_low_to_every_pin world1 eq_refl). Defined.

(** X10: after [run_one_step] on an object whose four pins are pairwise
    distinct, the last level written to pin [inp[k]] is entry [k] of the
    row of the half-step table at index [(num_step * direction) mod 8]. *)
Theorem run_one_step_sets_each_pin_to_its_level (w : world) (d : Z) :
  wired (self w) -> NoDup (inp (self w)) ->
  direction (self w) = Some d -> d = 1 \/ d = -1 ->
  forall k, (k < 4)%nat ->
    last_level (hw (snd (run_one_step w))) (nth k (inp (self w)) 0)
    = Some (nth k (table_row (num_step (self w) * d)) 0).
Proof.
  intros Hw Hnd Hdir Hd k Hk.
  rewrite (run_one_step_row d Hd w (conj Hw Hdir)). cbn [snd hw].
  pose proof (table_row_length (num_step (self w) * d)) as Hrow.
  destruct Hw as [Hlen _].
  destruct (table_row (num_step (self w) * d))
    as [| r0 [| r1 [| r2 [| r3 [| ? ?]]]]]; try discriminate.
  destruct (inp (self w)) as [| p0 [| p1 [| p2 [| p3 [| ? ?]]]]]; try discriminate.
  assert (p0 <> p1 /\ p0 <> p2 /\ p0 <> p3 /\ p1 <> p2 /\ p1 <> p3 /\ p2 <> p3)
    as [H01 [H02 [H03 [H12 [H13 H23]]]]].
  { inversion Hnd as [| ? ? Hn0 Hnd1]; subst.
    inversion Hnd1 as [| ? ? Hn1 Hnd2]; subst.
    inversion Hnd2 as [| ? ? Hn2 _]; subst.
    simpl in Hn0, Hn1, Hn2. intuition congruence. }
  unfold writes_of. cbn [combine map rev app fst snd last_level].
  destruct k as [| [| [| [| k]]]]; [| | | | lia]; cbn [nth];
    repeat match goal with
           | |- context [?a =? ?b] =>
               destruct (Z.eqb_spec a b); [try congruence | try congruence]
           end; reflexivity.
Qed.

Lemma run_one_step_sets_each_pin_to_its_level_witness :
  let w := mkWorld (moved motor1 13 (Some (-1)) 0) [] in
  last_level (hw (snd (run_one_step w))) 0 = Some 1.
Proof.
  intros w.
  apply (run_one_step_sets_each_pin_to_its_level w (-1)
           (conj eq_refl eq_refl)) with (k := 1%nat);
    [repeat constructor; simpl; intuition lia | reflexivity
    | right; reflexivity | lia].
Defined.

(** ** Every call of [move] *)





(** ** Sequences of moves *)

Lemma displacement_moved s n dir v requests :
  displacement (moved s n dir v) requests = displacement s requests.
Proof.
  induction requests as [| [N V] rest IH]; [reflexivity |].
  cbn [displacement]. rewrite IH. reflexivity.
Qed.

(** X12: valid calls chain.  From a wired object with a positive
    acceleration factor and minimal speed and limits below 2^53, any
    sequence of calls [move(N, V)] with [0 <= N < 2^53] returns normally, leaves the object wired
    with the same limits, and moves the counter by the sum over the calls
    of the steps taken times the direction of the call. *)
Theorem moves_compose (requests : list (Z * Z)) (w : world) :
  wired (self w) -> limits_ok (self w) ->
  Forall (fun r => 0 <= fst r /\ float_exact (self w) (fst r)) requests ->
  exists w',
    moves requests w = (Normal tt, w')
    /\ num_step (self w') = num_step (self w) + displacement (self w) requests
    /\ same_config (self w) (self w')
    /\ wired (self w') /\ limits_ok (self w').
Proof.
  revert w. induction requests as [| [N V] rest IH]; intros w Hw Hlim Hreq.
  - exists w. cbn [moves displacement]. rewrite Z.add_0_r.
    repeat split; try assumption; try apply Hw; try apply Hlim; reflexivity.
  - inversion Hreq as [| r l [HN _] Hrest]; subst. cbn [fst] in HN.
    cbn [moves]. unfold bind.
    rewrite (move_log N V w Hw Hlim HN).
    match goal with |- context [moves rest ?x] => set (w1 := x) end.
    destruct (IH w1) as [w' [Hm [Hn [Hc [Hw' Hl']]]]]; [exact Hw | exact Hlim | exact Hrest |].
    exists w'. split; [exact Hm |]. split; [| split; [| split; assumption]].
    + rewrite Hn. subst w1. cbn [self moved num_step displacement].
      rewrite displacement_moved. lia.
    + eapply same_config_trans; [| exact Hc].
      subst w1. unfold same_config. cbn. tauto.
Qed.

Lemma moves_compose_witness :
  exists w',
    moves [(25, 100); (7, -3); (0, 5); (18, -200)] world1 = (Normal tt, w')
    /\ num_step (self w')
       = num_step (self world1)
         + displacement (self world1) [(25, 100); (7, -3); (0, 5); (18, -200)]
    /\ same_config (self world1) (self w')
    /\ wired (self w') /\ limits_ok (self w').
Proof.
  apply (moves_compose [(25, 100); (7, -3); (0, 5); (18, -200)] world1);
    [split; reflexivity | split; reflexivity
    | repeat constructor; simpl; lia].
Defined.

(** ** The phases called on their own *)

(** X13: the two phase methods are not safe on an object at rest.  When
    [actual_speed] is 0, as after [__init__] or after a completed move, a
    deceleration of at least one step raises [ZeroDivisionError] before
    any hardware call and leaves the object as it was; and
    [_move_with_constant_speed] at speed 0 raises [ZeroDivisionError]
    with no hardware call, for any number of steps. *)
Theorem phases_at_rest_raise_ZeroDivisionError (steps : Q) (w : world) :
  actual_speed (self w) = 0 ->
  ((1 <= steps)%Q ->
   _linear_acceleration steps false w = (Raised ZeroDivisionError, w))
  /\ _move_with_constant_speed steps 0 w
     = (Raised ZeroDivisionError, mkWorld (set_actual_speed 0 (self w)) (hw w)).
Proof.
  intros Hv. split.
  - intros Hsteps. unfold _linear_acceleration. cbn [negb].
    unfold bind at 1, ret at 1. unfold bind at 1. rewrite ramp_loop_eq.
    assert (count_le 1 steps = true) as ->.
    { unfold count_le. apply Qle_bool_iff. exact Hsteps. }
    unfold ramp_step, bind at 1 2, get_self. rewrite Hv. reflexivity.
  - reflexivity.
Qed.

Lemma phases_at_rest_raise_ZeroDivisionError_witness :
  _linear_acceleration (5 # 2) false world1 = (Raised ZeroDivisionError, world1).
Proof.
  destruct (phases_at_rest_raise_ZeroDivisionError (5 # 2) world1 eq_refl)
    as [H _].
  apply H. unfold Qle. simpl. lia.
Defined.



(** X15: [_linear_acceleration(steps, False)] in direction [d], from a
    speed above [(floor(steps) - 1) * acceleration_factor], takes
    [floor(steps)] steps timed at the current speed, then one decrement
    lower at each step, and ends with the speed forced to 0 wherever the
    ramp had arrived. *)
Theorem deceleration_phase_ends_at_rest (steps : Q) (d : Z) (w : world) :
  wired (self w) -> direction (self w) = Some d -> d = 1 \/ d = -1 ->
  0 < acceleration_factor (self w) ->
  let s := self w in
  let n := Z.to_nat (Qfloor steps) in
  (Z.of_nat n - 1) * acceleration_factor s < actual_speed s ->
  _linear_acceleration steps false w
  = (Normal tt,
     mkWorld (moved s (num_step s + Z.of_nat n * d) (Some d) 0)
       (run_log (inp s) (num_step s * d)
          (ramp_chron n (actual_speed s) (- acceleration_factor s))
          (hw w))).
Proof.
  intros Hw Hdir Hd Ha s n Hv.
  exact (decelerate_log d Hd steps w (conj Hw Hdir) Ha Hv).
Qed.

Lemma deceleration_phase_ends_at_rest_witness :
  let w := mkWorld (moved motor1 0 (Some 1) 10) [] in
  _linear_acceleration (5 # 2) false w
  = (Normal tt,
     mkWorld (moved motor1 2 (Some 1) 0)
       (run_log [7; 0; 2; 3] 0 [10; 9] [])).
Proof.
  intros w.
  exact (deceleration_phase_ends_at_rest (5 # 2) 1 w
           (conj eq_refl eq_refl) eq_refl (or_introl eq_refl) eq_refl eq_refl).
Defined.

(** X16: [_move_with_constant_speed(steps, speed)] in direction [d] at a
    positive speed sets [actual_speed] to it and takes [int(steps)] steps,
    none when [steps < 1], each timed at that speed. *)
Theorem constant_speed_phase_runs_int_steps
  (steps : Q) (speed d : Z) (w : world) :
  wired (self w) -> direction (self w) = Some d -> d = 1 \/ d = -1 ->
  0 < speed ->
  let s := self w in
  let n := Z.to_nat (Py.trunc steps) in
  _move_with_constant_speed steps speed w
  = (Normal tt,
     mkWorld (moved s (num_step s + Z.of_nat n * d) (Some d) speed)
       (run_log (inp s) (num_step s * d) (repeat speed n) (hw w))).
Proof.
  intros Hw Hdir Hd Hv.
  exact (cruise_log d Hd steps speed w (conj Hw Hdir) Hv).
Qed.

Lemma constant_speed_phase_runs_int_steps_witness :
  let w := mkWorld (moved motor1 5 (Some (-1)) 0) [] in
  _move_with_constant_speed (7 # 2) 250 w
  = (Normal tt,
     mkWorld (moved motor1 2 (Some (-1)) 250)
       (run_log [7; 0; 2; 3] (-5) [250; 250; 250] [])).
Proof.
  intros w.
  exact (constant_speed_phase_runs_int_steps (7 # 2) 250 (-1) w
           (conj eq_refl eq_refl) eq_refl (or_intror eq_refl) eq_refl).
Defined.
